(** * Music-Transcriber: the audio capture and streaming pipeline

    A shallow embedding of the two source files of the recorder:

    - [public/audioprocessor.js]: the [AudioProcessor] worklet, whose
      [process] callback copies channel 0 of every render quantum and posts
      the copy to the main thread;
    - [src/components/Controls/RecordButton.tsx]: the [RecordButton]
      component, which owns the WebSocket, the AudioContext and the worklet
      node, forwards frames to the socket and dispatches the server's note
      events.

    JavaScript objects live in explicit stores (a heap of [Float32Array]s in
    the worklet scope, tables of sockets, audio contexts and worklet nodes on
    the main thread); a [useRef] cell holds an optional index into its table,
    so that two closures reading the same cell see the same object.  Handlers
    are written in a small state-and-exception monad. *)

From Stdlib Require Import ZArith Floats ssreflect.
From stdpp Require Import gmap strings list.

Local Open Scope string_scope.
Local Open Scope list_scope.
#[local] Set Warnings "-register-all,-rewrite-rw".

(* ===================================================================== *)
(** * public/audioprocessor.js *)
(* ===================================================================== *)

Module AudioProcessor.

(** One element of a [Float32Array]: the 32 bits of an IEEE-754 single.
    [process] only moves samples around, never computes with them. *)
Definition sample := Z.

(** A reference to a [Float32Array] object of the worklet global scope. *)
Definition loc := positive.

(** A message handed to [this.port.postMessage]: the object that was
    passed, and its contents as serialised at the time of the call (the
    structured clone the main thread receives). *)
Record message := Message { source : loc; payload : list sample }.

(** The AudioWorkletGlobalScope as far as the processor sees it: the typed
    arrays that exist, and the messages posted on the processor's port. *)
Record Scope := MkScope {
  heap : gmap loc (list sample);
  port : list message
}.

(** [new Float32Array(typedArray)]: a new typed array with its own buffer,
    of the length of [src], holding the elements of [src]. *)
Definition Float32Array_from (src : loc) (g : Scope) : loc * Scope :=
  let l := fresh (dom (heap g)) in
  (l, MkScope (<[l := default [] (heap g !! src)]> (heap g)) (port g)).

(** [this.port.postMessage(data)]. *)
Definition postMessage (data : loc) (g : Scope) : Scope :=
  MkScope (heap g) (port g ++ [Message data (default [] (heap g !! data))]).

(** [array[i] = v] on a typed array: out of range the store is ignored. *)
Definition Float32Array_set (l : loc) (i : nat) (v : sample) (g : Scope) : Scope :=
  MkScope (alter (fun buf => <[i := v]> buf) l (heap g)) (port g).

(** The rendering engine refilling (reusing) one of its own buffers. *)
Definition engine_write (l : loc) (buf : list sample) (g : Scope) : Scope :=
  MkScope (<[l := buf]> (heap g)) (port g).

(** [process(inputs, outputs, parameters)], lines 8-19.  [inputs] is an
    array of inputs, each an array of channels, each a [Float32Array];
    [outputs] and [parameters] are never read.  The result is the value
    returned to the engine together with the scope after the call. *)
Definition process (inputs : list (list loc)) (g : Scope) : bool * Scope :=
  match inputs !! 0%nat with                      (* const input = inputs[0] *)
  | Some input =>
      if (0 <? length input)%nat then             (* input && input.length > 0 *)
        match input !! 0%nat with
        | Some ch0 =>
            let '(outputData, g1) := Float32Array_from ch0 g in
            (true, postMessage outputData g1)
        | None => (true, g)
        end
      else (true, g)
  | None => (true, g)                             (* inputs[0] is undefined *)
  end.

(** One render quantum as the engine drives it: it first refills some of
    its buffers, then calls [process] on them. *)
Record quantum := Quantum {
  fill : list (loc * list sample);
  inputs : list (list loc)
}.

Definition refill (g : Scope) (w : loc * list sample) : Scope :=
  engine_write w.1 w.2 g.

Definition render_quantum (g : Scope) (q : quantum) : Scope :=
  (process (inputs q) (foldl refill g (fill q))).2.

Definition render (qs : list quantum) (g : Scope) : Scope :=
  foldl render_quantum g qs.

(** The frames emitted so far are still allocated. *)
Definition frames_live (g : Scope) : Prop :=
  Forall (fun m => source m ∈ dom (heap g)) (port g).

End AudioProcessor.

(* ===================================================================== *)
(** * The values and host objects the component works with *)
(* ===================================================================== *)

Module Js.

(** The exceptions and promise rejections that occur. *)
Inductive exn :=
| SyntaxError          (* JSON.parse on a text that is not JSON *)
| TypeError            (* property read on null, call of a non-function *)
| InvalidStateError    (* WebSocket.send while CONNECTING *)
| NotAllowedError      (* getUserMedia: permission denied *)
| NotFoundError        (* getUserMedia: no microphone *)
| AbortError.          (* addModule: the script could not be loaded *)

(** What [JSON.parse] returns: numbers are binary64 floats, an object is
    the sequence of its members as written (a later member with the same
    name replaces an earlier one). *)
Inductive json :=
| JNull
| JBool (b : bool)
| JNum (n : float)
| JStr (s : string)
| JArr (items : list json)
| JObj (members : list (string * json)).

(** A JavaScript value as the component meets them: [None] is
    [undefined]. *)
Definition value := option json.

(** The own property [key] of an object literal: the last member of that
    name. *)
Fixpoint own (key : string) (members : list (string * json)) : value :=
  match members with
  | [] => None
  | (k, v) :: rest =>
      match own key rest with
      | Some v' => Some v'
      | None => if String.eqb k key then Some v else None
      end
  end.

(** [data.key] for the property names the component reads ([type], [note],
    [start_time], [duration]): none of them exists on a prototype, so only
    own members of objects are found; reading a property of [null]
    throws. *)
Definition Get (data : json) (key : string) : exn + value :=
  match data with
  | JNull => inl TypeError
  | JObj members => inr (own key members)
  | _ => inr None
  end.

(** [if (v)]: ToBoolean. *)
Definition truthy (v : value) : bool :=
  match v with
  | None | Some JNull => false
  | Some (JBool b) => b
  | Some (JNum n) => negb (PrimFloat.eqb n 0 || PrimFloat.is_nan n)
  | Some (JStr s) => negb (String.eqb s "")
  | Some (JArr _) | Some (JObj _) => true
  end.

(** [a === b] against a string literal, as the [switch] of
    [handleServerEvent] compares. *)
Definition strict_eq_string (v : value) (tag : string) : bool :=
  match v with
  | Some (JStr s) => String.eqb s tag
  | _ => false
  end.

(** Whether [`${v}`] (ToString) returns.  An object with an own member
    [toString] has no callable conversion method left that yields a
    primitive, so ToString throws a TypeError; an array joins the
    conversions of its elements. *)
Fixpoint printable (v : json) : bool :=
  match v with
  | JObj members => match own "toString" members with Some _ => false | None => true end
  | JArr items => forallb printable items
  | _ => true
  end.

(** [v?.toFixed(3)]: [undefined] on [undefined] and [null], the formatted
    number on a number (kept here as the number itself), and a TypeError
    on anything else, which has no [toFixed] method to call. *)
Definition toFixed3 (v : value) : exn + option float :=
  match v with
  | None | Some JNull => inr None
  | Some (JNum n) => inr (Some n)
  | Some _ => inl TypeError
  end.

End Js.

(* ===================================================================== *)
(** * src/components/Controls/RecordButton.tsx *)
(* ===================================================================== *)

Module RecordButton.
Import Js.

(** ** The host objects *)

Inductive ReadyState := CONNECTING | OPEN | CLOSING | CLOSED.

(** A [Float32Array] as it reaches the main thread. *)
Definition frame := list AudioProcessor.sample.

(** A [WebSocket]: its [readyState] and the messages it has transmitted.
    Every socket the component creates gets the same three handlers
    ([onopen], [onmessage], [onclose]) in the statement that creates it,
    and the handlers read the [useRef] cells, not the socket they are
    attached to. *)
Record WebSocket := MkSocket { readyState : ReadyState; sent : list frame }.

(** [AudioContext.state]. *)
Inductive ContextState := running | closed.

(** An [AudioWorkletNode]: the context it was created in, whether
    [port.onmessage] is assigned, and whether the microphone source is
    connected to it. *)
Record WorkletNode := MkNode {
  node_context : nat;
  wired : bool;
  connected : bool
}.

(** Where an invocation of the [async] [onopen] handler stands: suspended
    in one of its two [await]s (with the locals it holds), or finished. *)
Inductive stage :=
| AwaitUserMedia
| AwaitAddModule (stream audioContext : nat)
| Finished.

(** [opened_by] is the socket whose [open] event started the invocation;
    the handler itself never reads it. *)
Record Task := MkTask { opened_by : nat; at_stage : stage }.

(** What the console shows.  The text of a template literal is kept as
    the values interpolated into it. *)
Inductive entry :=
| log_connected                                  (* line 26 *)
| log_note_on (note : value) (start : option float)                    (* line 96 *)
| log_note_off (note : value) (start duration : option float)          (* line 101 *)
| log_silence_reset                              (* line 109 *)
| error_audio_setup (err : exn)                  (* line 59 *)
| error_json_parse (e : exn).                    (* line 70 *)

(** A rejection signal on the error channel. *)
Definition is_error (e : entry) : bool :=
  match e with
  | error_audio_setup _ | error_json_parse _ => true
  | _ => false
  end.

(** The order in which the component acts on the outside world, oldest
    first; kept for the statements about ordering, never read by the
    code. *)
Inductive effect :=
| NewWebSocket (s : nat)         (* line 23 *)
| Ready (s : nat)                (* the transport of [s] signalled open *)
| GetUserMedia (s : nat)         (* line 30, in the [onopen] of [s] *)
| Granted (s : nat)              (* the microphone stream was obtained *)
| Installed (s n : nat)          (* line 46: the producer node exists *)
| Wired (s n : nat).             (* line 49: frames reach line 50 *)

(** The component instance and the host objects it has created. *)
Record World := MkWorld {
  isRecording : bool;                     (* useState(false) *)
  socketRef : option nat;                 (* socketRef.current *)
  audioContextRef : option nat;           (* audioContextRef.current *)
  workletNodeRef : option nat;            (* workletNodeRef.current *)
  sockets : list WebSocket;
  contexts : list ContextState;
  nodes : list WorkletNode;
  streams : nat;                          (* MediaStreams obtained *)
  tasks : list Task;
  console : list entry;
  uncaught : list exn;                    (* errors that left a handler *)
  history : list effect
}.

Definition init : World :=
  MkWorld false None None None [] [] [] 0 [] [] [] [].

Definition set_isRecording (b : bool) (w : World) : World :=
  MkWorld b (socketRef w) (audioContextRef w) (workletNodeRef w) (sockets w)
    (contexts w) (nodes w) (streams w) (tasks w) (console w) (uncaught w) (history w).
Definition set_socketRef (r : option nat) (w : World) : World :=
  MkWorld (isRecording w) r (audioContextRef w) (workletNodeRef w) (sockets w)
    (contexts w) (nodes w) (streams w) (tasks w) (console w) (uncaught w) (history w).
Definition set_audioContextRef (r : option nat) (w : World) : World :=
  MkWorld (isRecording w) (socketRef w) r (workletNodeRef w) (sockets w)
    (contexts w) (nodes w) (streams w) (tasks w) (console w) (uncaught w) (history w).
Definition set_workletNodeRef (r : option nat) (w : World) : World :=
  MkWorld (isRecording w) (socketRef w) (audioContextRef w) r (sockets w)
    (contexts w) (nodes w) (streams w) (tasks w) (console w) (uncaught w) (history w).
Definition set_sockets (l : list WebSocket) (w : World) : World :=
  MkWorld (isRecording w) (socketRef w) (audioContextRef w) (workletNodeRef w) l
    (contexts w) (nodes w) (streams w) (tasks w) (console w) (uncaught w) (history w).
Definition set_contexts (l : list ContextState) (w : World) : World :=
  MkWorld (isRecording w) (socketRef w) (audioContextRef w) (workletNodeRef w) (sockets w)
    l (nodes w) (streams w) (tasks w) (console w) (uncaught w) (history w).
Definition set_nodes (l : list WorkletNode) (w : World) : World :=
  MkWorld (isRecording w) (socketRef w) (audioContextRef w) (workletNodeRef w) (sockets w)
    (contexts w) l (streams w) (tasks w) (console w) (uncaught w) (history w).
Definition set_streams (k : nat) (w : World) : World :=
  MkWorld (isRecording w) (socketRef w) (audioContextRef w) (workletNodeRef w) (sockets w)
    (contexts w) (nodes w) k (tasks w) (console w) (uncaught w) (history w).
Definition set_tasks (l : list Task) (w : World) : World :=
  MkWorld (isRecording w) (socketRef w) (audioContextRef w) (workletNodeRef w) (sockets w)
    (contexts w) (nodes w) (streams w) l (console w) (uncaught w) (history w).
Definition set_console (l : list entry) (w : World) : World :=
  MkWorld (isRecording w) (socketRef w) (audioContextRef w) (workletNodeRef w) (sockets w)
    (contexts w) (nodes w) (streams w) (tasks w) l (uncaught w) (history w).
Definition set_uncaught (l : list exn) (w : World) : World :=
  MkWorld (isRecording w) (socketRef w) (audioContextRef w) (workletNodeRef w) (sockets w)
    (contexts w) (nodes w) (streams w) (tasks w) (console w) l (history w).
Definition set_history (l : list effect) (w : World) : World :=
  MkWorld (isRecording w) (socketRef w) (audioContextRef w) (workletNodeRef w) (sockets w)
    (contexts w) (nodes w) (streams w) (tasks w) (console w) (uncaught w) l.

(** ** Statements: state threaded through, exceptions propagated.  What a
    statement did before it threw stays done. *)

Definition M (A : Type) : Type := World -> (exn + A) * World.

Definition ret {A} (a : A) : M A := fun w => (inr a, w).
Definition throw {A} (e : exn) : M A := fun w => (inl e, w).
Definition bind {A B} (m : M A) (k : A -> M B) : M B :=
  fun w => match m w with
           | (inr a, w') => k a w'
           | (inl e, w') => (inl e, w')
           end.
Definition try_catch {A} (body : M A) (handler : exn -> M A) : M A :=
  fun w => match body w with
           | (inr a, w') => (inr a, w')
           | (inl e, w') => handler e w'
           end.
Definition lift {A} (r : exn + A) : M A := fun w => (r, w).
Definition read {A} (f : World -> A) : M A := fun w => (inr (f w), w).
Definition update (f : World -> World) : M unit := fun w => (inr tt, f w).

#[global] Instance M_ret : MRet M := @ret.
#[global] Instance M_bind : MBind M := fun A B k m => bind m k.

Definition when (b : bool) (m : M unit) : M unit := if b then m else ret tt.

(** ** The host's API, as far as the component calls it *)

Definition socket_state (w : World) (s : nat) : option ReadyState :=
  readyState <$> sockets w !! s.

Definition record (e : effect) : M unit :=
  update (fun w => set_history (history w ++ [e]) w).

(** [new WebSocket(url)]: a socket that is connecting. *)
Definition WebSocket_new : M nat :=
  s ← read (fun w => length (sockets w));
  update (fun w => set_sockets (sockets w ++ [MkSocket CONNECTING []]) w);;
  record (NewWebSocket s);;
  ret s.

(** [socket.send(data)]: throws while connecting, transmits when open, and
    discards the data once the socket is closing or closed. *)
Definition WebSocket_send (s : nat) (data : frame) : M unit :=
  k ← read (fun w => sockets w !! s);
  match k with
  | Some (MkSocket CONNECTING _) => throw InvalidStateError
  | Some (MkSocket OPEN out) =>
      update (fun w => set_sockets (<[s := MkSocket OPEN (out ++ [data])]> (sockets w)) w)
  | _ => ret tt
  end.

(** [socket.close()]: starts closing a socket that is connecting or open,
    and does nothing otherwise; it never throws. *)
Definition WebSocket_close (s : nat) : M unit :=
  k ← read (fun w => sockets w !! s);
  match k with
  | Some (MkSocket CONNECTING out) | Some (MkSocket OPEN out) =>
      update (fun w => set_sockets (<[s := MkSocket CLOSING out]> (sockets w)) w)
  | _ => ret tt
  end.

(** [new AudioContext({ sampleRate: 22050 })]. *)
Definition AudioContext_new : M nat :=
  c ← read (fun w => length (contexts w));
  update (fun w => set_contexts (contexts w ++ [running]) w);;
  ret c.

(** [audioContext.close()]: releases the context; the promise it returns
    is dropped by the component. *)
Definition AudioContext_close (c : nat) : M unit :=
  update (fun w => set_contexts (<[c := closed]> (contexts w)) w).

(** [new AudioWorkletNode(audioContext, 'audio-processor')]. *)
Definition AudioWorkletNode_new (c : nat) : M nat :=
  n ← read (fun w => length (nodes w));
  update (fun w => set_nodes (nodes w ++ [MkNode c false false]) w);;
  ret n.

Definition console_log (e : entry) : M unit :=
  update (fun w => set_console (console w ++ [e]) w).
Definition console_error := console_log.

Definition setIsRecording (b : bool) : M unit := update (set_isRecording b).

Definition set_stage (t : nat) (st : stage) : M unit :=
  update (fun w =>
    match tasks w !! t with
    | Some k => set_tasks (<[t := MkTask (opened_by k) st]> (tasks w)) w
    | None => w
    end).

(** ** The component *)

(** [stopAudio], lines 80-90. *)
Definition stopAudio : M unit :=
  c ← read audioContextRef;
  match c with
  | Some c => AudioContext_close c;; update (set_audioContextRef None)
  | None => ret tt
  end;;
  s ← read socketRef;
  match s with
  | Some s => WebSocket_close s;; update (set_socketRef None)
  | None => ret tt
  end;;
  setIsRecording false.

(** [workletNode.port.onmessage], lines 49-53: the frame goes out on the
    socket that [socketRef] holds now, if that socket is open. *)
Definition port_onmessage (data : frame) : M unit :=
  s ← read socketRef;
  st ← read (fun w => s ≫= socket_state w);  (* socketRef.current?.readyState *)
  match st with
  | Some OPEN =>
      match s with
      | Some s => WebSocket_send s data
      | None => throw TypeError
      end
  | _ => ret tt
  end.

(** [`${v}`]. *)
Definition interpolate (v : value) : M unit :=
  match v with
  | Some j => if printable j then ret tt else throw TypeError
  | None => ret tt
  end.

(** [handleServerEvent], lines 92-112.  The [switch] has four cases and no
    [default]. *)
Definition handleServerEvent (data : json) : M unit :=
  ty ← lift (Get data "type");
  if strict_eq_string ty "note_on" then
    note ← lift (Get data "note");
    when (truthy note) (
      note ← lift (Get data "note");
      interpolate note;;
      start_time ← lift (Get data "start_time");
      start ← lift (toFixed3 start_time);
      console_log (log_note_on note start))
  else if strict_eq_string ty "note_off" then
    note ← lift (Get data "note");
    interpolate note;;
    start_time ← lift (Get data "start_time");
    start ← lift (toFixed3 start_time);
    duration ← lift (Get data "duration");
    duration ← lift (toFixed3 duration);
    console_log (log_note_off note start duration)
  else if strict_eq_string ty "volume" then
    ret tt
  else if strict_eq_string ty "silence_reset" then
    console_log log_silence_reset
  else
    ret tt.

(** [startStreaming], lines 22-78: no [await] of its own, so it runs to
    its end in the click that calls it.  The three handler assignments
    (lines 25, 65, 74) are the same for every socket. *)
Definition startStreaming : M unit :=
  s ← WebSocket_new;
  update (set_socketRef (Some s)).

(** The [catch] block of [onopen], lines 58-62. *)
Definition audio_setup_failed (err : exn) : M unit :=
  console_error (error_audio_setup err);;
  s ← read socketRef;
  match s with
  | Some s => WebSocket_close s                  (* socketRef.current?.close() *)
  | None => ret tt
  end;;
  setIsRecording false.

(** [onopen], lines 25-30: up to the first [await]. *)
Definition socket_onopen (s : nat) : M unit :=
  console_log log_connected;;
  setIsRecording true;;
  record (GetUserMedia s);;
  update (fun w => set_tasks (tasks w ++ [MkTask s AwaitUserMedia]) w).

(** [onopen], lines 30-43: from the stream to the second [await]. *)
Definition onopen_with_stream (t s : nat) : M unit :=
  stream ← read streams;
  update (set_streams (S stream));;
  record (Granted s);;
  audioContext ← AudioContext_new;
  update (set_audioContextRef (Some audioContext));;
  set_stage t (AwaitAddModule stream audioContext).

(** [onopen], lines 45-56: from the loaded module to the end. *)
Definition onopen_with_module (t s stream audioContext : nat) : M unit :=
  workletNode ← AudioWorkletNode_new audioContext;
  record (Installed s workletNode);;
  update (set_workletNodeRef (Some workletNode));;
  update (fun w => set_nodes (<[workletNode := MkNode audioContext true false]> (nodes w)) w);;
  record (Wired s workletNode);;
  update (fun w => set_nodes (<[workletNode := MkNode audioContext true true]> (nodes w)) w);;
  set_stage t Finished.

(** [onclose], lines 74-77. *)
Definition socket_onclose : M unit :=
  setIsRecording false;;
  stopAudio.

Section Host.

(** [JSON.parse] is the host's: [None] when it throws a SyntaxError. *)
Variable JSON_parse : string -> option json.

(** [onmessage], lines 65-72. *)
Definition socket_onmessage (data : string) : M unit :=
  try_catch
    (v ← match JSON_parse data with
         | Some v => ret v
         | None => throw SyntaxError
         end;
     handleServerEvent v)
    (fun e => console_error (error_json_parse e)).

(** ** The event loop *)

(** What can happen to a mounted component: the user, the network, the
    two promises of [onopen], and the worklet's port. *)
Inductive event :=
| Click                                   (* the button *)
| Unmount                                 (* the effect's cleanup, line 115 *)
| SocketOpen (s : nat)                    (* the connection is established *)
| SocketMessage (s : nat) (data : string) (* a text message arrives *)
| SocketClose (s : nat)                   (* the connection is closed or lost *)
| UserMediaGranted (t : nat)
| UserMediaDenied (t : nat) (err : exn)
| ModuleLoaded (t : nat)
| ModuleFailed (t : nat) (err : exn)
| PortMessage (n : nat) (data : frame).   (* a frame posted by the processor *)

(** An exception that leaves a handler is reported by the host and the
    event loop goes on. *)
Definition handle (m : M unit) (w : World) : World :=
  match m w with
  | (inr _, w') => w'
  | (inl e, w') => set_uncaught (uncaught w' ++ [e]) w'
  end.

Definition set_readyState (s : nat) (r : ReadyState) (w : World) : World :=
  match sockets w !! s with
  | Some k => set_sockets (<[s := MkSocket r (sent k)]> (sockets w)) w
  | None => w
  end.

(** One turn of the event loop.  An event that cannot occur in [w] (a
    socket that is not connecting cannot open, a promise settles once)
    leaves [w] as it is. *)
Definition step (w : World) (ev : event) : World :=
  match ev with
  | Click =>                                                  (* line 120 *)
      handle (if isRecording w then stopAudio else startStreaming) w
  | Unmount => handle stopAudio w
  | SocketOpen s =>
      match socket_state w s with
      | Some CONNECTING =>
          handle (record (Ready s);; socket_onopen s) (set_readyState s OPEN w)
      | _ => w
      end
  | SocketMessage s data =>
      match socket_state w s with
      | Some OPEN | Some CLOSING => handle (socket_onmessage data) w
      | _ => w
      end
  | SocketClose s =>
      match socket_state w s with
      | Some CONNECTING | Some OPEN | Some CLOSING =>
          handle socket_onclose (set_readyState s CLOSED w)
      | _ => w
      end
  | UserMediaGranted t =>
      match tasks w !! t with
      | Some (MkTask s AwaitUserMedia) => handle (onopen_with_stream t s) w
      | _ => w
      end
  | UserMediaDenied t err =>
      match tasks w !! t with
      | Some (MkTask s AwaitUserMedia) =>
          handle (set_stage t Finished;; audio_setup_failed err) w
      | _ => w
      end
  | ModuleLoaded t =>
      match tasks w !! t with
      | Some (MkTask s (AwaitAddModule stream audioContext)) =>
          handle (onopen_with_module t s stream audioContext) w
      | _ => w
      end
  | ModuleFailed t err =>
      match tasks w !! t with
      | Some (MkTask s (AwaitAddModule _ _)) =>
          handle (set_stage t Finished;; audio_setup_failed err) w
      | _ => w
      end
  | PortMessage n data =>
      match nodes w !! n with
      | Some (MkNode _ true _) => handle (port_onmessage data) w
      | _ => w
      end
  end.

Definition run (evs : list event) (w : World) : World := foldl step w evs.

End Host.

End RecordButton.

(* ===================================================================== *)
(** * What the statements below are about *)
(* ===================================================================== *)

Module Spec.
Import Js RecordButton.

(** The five tags of the [NoteEvent] type, line 5. *)
Definition tags : list string :=
  ["note_on"; "note_off"; "re_trigger"; "volume"; "silence_reset"].

(** The parsed message carries one of the five tags in its [type]. *)
Definition recognized (data : json) : bool :=
  match Get data "type" with
  | inr (Some (JStr s)) => bool_decide (s ∈ tags)
  | _ => false
  end.

(** What running a statement added to the console. *)
Definition printed {A} (m : M A) (w : World) : list entry :=
  drop (length (console w)) (console (m w).2).

(** A statement signals a rejection: it throws, or it writes on the error
    channel. *)
Definition rejects {A} (m : M A) (w : World) : Prop :=
  (∃ e, (m w).1 = inl e) ∨ (∃ e, e ∈ printed m w ∧ is_error e = true).

(** The controller is streaming on socket [s] with audio context [c] and
    producer node [n]. *)
Definition Streaming (w : World) (s c n : nat) : Prop :=
  isRecording w = true ∧
  socketRef w = Some s ∧ socket_state w s = Some OPEN ∧
  audioContextRef w = Some c ∧ contexts w !! c = Some running ∧
  workletNodeRef w = Some n ∧ nodes w !! n = Some (MkNode c true true).

(** A socket on which [close()] has taken effect. *)
Definition released (w : World) (s : nat) : Prop :=
  socket_state w s = Some CLOSING ∨ socket_state w s = Some CLOSED.

(** The table of sockets after [close()] on socket [s]. *)
Definition closing (s : nat) (l : list WebSocket) : list WebSocket :=
  match l !! s with
  | Some (MkSocket CONNECTING out) | Some (MkSocket OPEN out) =>
      <[s := MkSocket CLOSING out]> l
  | _ => l
  end.

(** The world [stopAudio] leaves behind. *)
Definition stopped (w : World) : World :=
  MkWorld false None None (workletNodeRef w)
    (match socketRef w with Some s => closing s (sockets w) | None => sockets w end)
    (match audioContextRef w with
     | Some c => <[c := closed]> (contexts w)
     | None => contexts w
     end)
    (nodes w) (streams w) (tasks w) (console w) (uncaught w) (history w).

(** Frames arriving from worklet nodes, as events. *)
Definition deliveries (fs : list (nat * frame)) : list event :=
  (fun f => PortMessage f.1 f.2) <$> fs.

(** What must have happened before an effect. *)
Definition requires (e : effect) (before : list effect) : Prop :=
  match e with
  | NewWebSocket _ => True
  | Ready s => NewWebSocket s ∈ before
  | GetUserMedia s => Ready s ∈ before
  | Granted s => GetUserMedia s ∈ before
  | Installed s n => Granted s ∈ before
  | Wired s n => Installed s n ∈ before
  end.

Definition ordered (h : list effect) : Prop :=
  ∀ before e after, h = before ++ e :: after → requires e before.

(** What has been established by the time an effect takes place: the
    chain of [requires] followed to its start. *)
Definition established (e : effect) (before : list effect) : Prop :=
  match e with
  | NewWebSocket _ => True
  | Ready s => NewWebSocket s ∈ before
  | GetUserMedia s | Granted s => NewWebSocket s ∈ before ∧ Ready s ∈ before
  | Installed s _ =>
      NewWebSocket s ∈ before ∧ Ready s ∈ before ∧ Granted s ∈ before
  | Wired s n =>
      NewWebSocket s ∈ before ∧ Ready s ∈ before ∧ Granted s ∈ before ∧
      Installed s n ∈ before
  end.

(** The history accounts for every socket and for every suspended
    [onopen]. *)
Definition coherent (w : World) : Prop :=
  ordered (history w) ∧
  (∀ s, s < length (sockets w) → NewWebSocket s ∈ history w) ∧
  (∀ t s, tasks w !! t = Some (MkTask s AwaitUserMedia) →
          GetUserMedia s ∈ history w) ∧
  (∀ t s stream c, tasks w !! t = Some (MkTask s (AwaitAddModule stream c)) →
                   Granted s ∈ history w).

(** The claim that a connection is only created once the microphone has
    been granted and the producer installed. *)
Definition connects_after_device (w : World) : Prop :=
  sockets w ≠ [] → streams w ≠ 0 ∧ nodes w ≠ [].

End Spec.

(* ===================================================================== *)
(** * Concrete scopes, messages and runs *)
(* ===================================================================== *)

Module Samples.
Import AudioProcessor Js RecordButton.

(** A scope in which the engine owns one buffer of four samples and one
    frame has been posted already. *)
Definition scope_example : Scope :=
  MkScope {[ 1%positive := [10; 20; 30; 40]%Z; 2%positive := [1; 2; 3; 4]%Z ]}
          [Message 2%positive [1; 2; 3; 4]%Z].

(** The double quote. *)
Definition dq : string :=
  String (Ascii.Ascii false true false false false true false false) EmptyString.

Definition quoted (s : string) : string := (dq +:+ s +:+ dq)%string.

(** [{"type":"chord"}] *)
Definition text_chord : string :=
  ("{" +:+ quoted "type" +:+ ":" +:+ quoted "chord" +:+ "}")%string.
Definition data_chord : json := JObj [("type", JStr "chord")].

(** [{"note":"A4"}] *)
Definition text_untyped : string :=
  ("{" +:+ quoted "note" +:+ ":" +:+ quoted "A4" +:+ "}")%string.
Definition data_untyped : json := JObj [("note", JStr "A4")].

(** [{"type":"re_trigger","note":"A4","start_time":0.5}] *)
Definition text_re_trigger : string :=
  ("{" +:+ quoted "type" +:+ ":" +:+ quoted "re_trigger" +:+ ","
       +:+ quoted "note" +:+ ":" +:+ quoted "A4" +:+ ","
       +:+ quoted "start_time" +:+ ":0.5}")%string.
Definition data_re_trigger : json :=
  JObj [("type", JStr "re_trigger"); ("note", JStr "A4"); ("start_time", JNum 0.5)].

(** [{"type":"note_on","start_time":0.5}] *)
Definition text_note_on_bare : string :=
  ("{" +:+ quoted "type" +:+ ":" +:+ quoted "note_on" +:+ ","
       +:+ quoted "start_time" +:+ ":0.5}")%string.
Definition data_note_on_bare : json :=
  JObj [("type", JStr "note_on"); ("start_time", JNum 0.5)].

(** [{"type":"note_on","note":"A4","start_time":0.5}] *)
Definition text_note_on : string :=
  ("{" +:+ quoted "type" +:+ ":" +:+ quoted "note_on" +:+ ","
       +:+ quoted "note" +:+ ":" +:+ quoted "A4" +:+ ","
       +:+ quoted "start_time" +:+ ":0.5}")%string.
Definition data_note_on : json :=
  JObj [("type", JStr "note_on"); ("note", JStr "A4"); ("start_time", JNum 0.5)].

(** A text that is not JSON. *)
Definition text_broken : string := "{type:".

(** [JSON.parse] on the texts above. *)
Definition parse_samples (text : string) : option json :=
  if String.eqb text text_chord then Some data_chord
  else if String.eqb text text_untyped then Some data_untyped
  else if String.eqb text text_re_trigger then Some data_re_trigger
  else if String.eqb text text_note_on_bare then Some data_note_on_bare
  else if String.eqb text text_note_on then Some data_note_on
  else if String.eqb text "null" then Some JNull
  else None.

(** A recording session up to the point where frames flow: the click, the
    connection, the microphone, the worklet module. *)
Definition start_session : list event :=
  [Click; SocketOpen 0; UserMediaGranted 0; ModuleLoaded 0].

Definition streaming_world : World :=
  Eval vm_compute in run parse_samples start_session init.

(** Two clicks before the first connection is established, then the first
    socket opens and the microphone is refused. *)
Definition double_start_denied : list event :=
  [Click; Click; SocketOpen 0; UserMediaDenied 0 NotAllowedError].

End Samples.

(* ===================================================================== *)
(** * Runs of the processor and of the event loop *)
(* ===================================================================== *)

Module Runs.
Import AudioProcessor Js RecordButton Spec.

(** The block that [process] sees in quantum [q]: channel 0 of the first
    input, as the engine has just filled it; [None] when the quantum has no
    input. *)
Definition block (g : Scope) (q : quantum) : option (list sample) :=
  match inputs q !! 0%nat with
  | Some (ch0 :: _) => Some (default [] (heap (foldl refill g (fill q)) !! ch0))
  | _ => None
  end.

(** The blocks of a run, each read at the time of its quantum. *)
Fixpoint blocks (qs : list quantum) (g : Scope) : list (list sample) :=
  match qs with
  | [] => []
  | q :: qs => option_list (block g q) ++ blocks qs (render_quantum g q)
  end.

(** The engine refills only buffers of its own, the set [E]. *)
Definition engine_owned (E : gset loc) (qs : list quantum) : Prop :=
  Forall (fun q => Forall (fun w => w.1 ∈ E) (fill q)) qs.

(** The frames posted so far hold what was posted, and are none of the
    engine's buffers. *)
Definition frames_hold (E : gset loc) (g : Scope) : Prop :=
  E ⊆ dom (heap g) ∧
  Forall (fun m => (source m ∉ E) ∧ heap g !! source m = Some (payload m)) (port g).

(** The frames the processor has posted, as they arrive from node [n]. *)
Definition arrivals (n : nat) (g : Scope) : list (nat * frame) :=
  (fun m => (n, payload m)) <$> port g.

(** Text messages arriving on socket [s], as events. *)
Definition messages (s : nat) (texts : list string) : list event :=
  SocketMessage s <$> texts.

(** What [onmessage] prints for a text. *)
Definition emitted (JSON_parse : string -> option json) (text : string) : list entry :=
  console (socket_onmessage JSON_parse text init).2.

(** The world after [startStreaming]. *)
Definition started (w : World) : World :=
  set_socketRef (Some (length (sockets w)))
    (set_history (history w ++ [NewWebSocket (length (sockets w))])
       (set_sockets (sockets w ++ [MkSocket CONNECTING []]) w)).

(** The world after the [open] handler of [s] has run to its first
    [await]. *)
Definition opened (s : nat) (w : World) : World :=
  set_tasks (tasks w ++ [MkTask s AwaitUserMedia])
    (set_history (history w ++ [Ready s; GetUserMedia s])
       (set_isRecording true
          (set_console (console w ++ [log_connected]) w))).

(** The world after task [t] of socket [s] got its stream and reached the
    second [await]. *)
Definition granted (t s : nat) (w : World) : World :=
  set_tasks (<[t := MkTask s (AwaitAddModule (streams w) (length (contexts w)))]> (tasks w))
    (set_audioContextRef (Some (length (contexts w)))
       (set_contexts (contexts w ++ [running])
          (set_history (history w ++ [Granted s])
             (set_streams (S (streams w)) w)))).

(** The world after task [t] of socket [s] installed its producer in
    context [c]. *)
Definition loaded (t s c : nat) (w : World) : World :=
  set_tasks (<[t := MkTask s Finished]> (tasks w))
    (set_nodes (nodes w ++ [MkNode c true true])
       (set_workletNodeRef (Some (length (nodes w)))
          (set_history
             (history w ++ [Installed s (length (nodes w)); Wired s (length (nodes w))])
             w))).

(** The world after the [catch] block ended task [t] of socket [s]. *)
Definition failed (t s : nat) (err : exn) (w : World) : World :=
  set_isRecording false
    (set_sockets
       (match socketRef w with
        | Some r => closing r (sockets w)
        | None => sockets w
        end)
       (set_console (console w ++ [error_audio_setup err])
          (set_tasks (<[t := MkTask s Finished]> (tasks w)) w))).

(** Every reference, every node and every suspended handler points at an
    object that exists, and the audio context the component holds is
    running. *)
Definition refs_valid (w : World) : Prop :=
  (∀ s, socketRef w = Some s → s < length (sockets w)) ∧
  (∀ c, audioContextRef w = Some c → contexts w !! c = Some running) ∧
  (∀ n, workletNodeRef w = Some n →
        ∃ c, nodes w !! n = Some (MkNode c true true)) ∧
  (∀ n k, nodes w !! n = Some k → node_context k < length (contexts w)) ∧
  (∀ t s stream c, tasks w !! t = Some (MkTask s (AwaitAddModule stream c)) →
                   c < length (contexts w)) ∧
  (∀ t k, tasks w !! t = Some k → opened_by k < length (sockets w)).

(** What a frame arriving from the worklet does to the world: it goes out
    on the socket that [socketRef] holds, if that socket is open. *)
Definition forwarded (data : frame) (w : World) : World :=
  match socketRef w with
  | Some s =>
      match sockets w !! s with
      | Some (MkSocket OPEN out) =>
          set_sockets (<[s := MkSocket OPEN (out ++ [data])]> (sockets w)) w
      | _ => w
      end
  | None => w
  end.

(** One turn of the event loop with the handlers run to their end. *)
Definition next (JSON_parse : string -> option json) (w : World) (ev : event) : World :=
  match ev with
  | Click => if isRecording w then stopped w else started w
  | Unmount => stopped w
  | SocketOpen s =>
      match socket_state w s with
      | Some CONNECTING => opened s (set_readyState s OPEN w)
      | _ => w
      end
  | SocketMessage s text =>
      match socket_state w s with
      | Some OPEN | Some CLOSING =>
          set_console (console w ++ emitted JSON_parse text) w
      | _ => w
      end
  | SocketClose s =>
      match socket_state w s with
      | Some CONNECTING | Some OPEN | Some CLOSING =>
          stopped (set_readyState s CLOSED w)
      | _ => w
      end
  | UserMediaGranted t =>
      match tasks w !! t with
      | Some (MkTask s AwaitUserMedia) => granted t s w
      | _ => w
      end
  | UserMediaDenied t err =>
      match tasks w !! t with
      | Some (MkTask s AwaitUserMedia) => failed t s err w
      | _ => w
      end
  | ModuleLoaded t =>
      match tasks w !! t with
      | Some (MkTask s (AwaitAddModule _ c)) => loaded t s c w
      | _ => w
      end
  | ModuleFailed t err =>
      match tasks w !! t with
      | Some (MkTask s (AwaitAddModule _ _)) => failed t s err w
      | _ => w
      end
  | PortMessage n data =>
      match nodes w !! n with
      | Some (MkNode _ true _) => forwarded data w
      | _ => w
      end
  end.

(** [`${v}`] returns: the value converts to a string. *)
Definition prints (v : value) : Prop :=
  match v with
  | Some j => printable j = true
  | None => True
  end.

(** Whether [`${v}`] returns, as a boolean: [undefined] always converts. *)
Definition converts (v : value) : bool :=
  match v with
  | Some j => printable j
  | None => true
  end.


End Runs.

(* ===================================================================== *)
(** * More concrete messages and runs *)
(* ===================================================================== *)

Module Wire.
Import AudioProcessor Js RecordButton Samples Runs.

(** [{"type":"note_off","note":"A4","start_time":0.5,"duration":0.25}] *)
Definition text_note_off : string :=
  ("{" +:+ quoted "type" +:+ ":" +:+ quoted "note_off" +:+ ","
       +:+ quoted "note" +:+ ":" +:+ quoted "A4" +:+ ","
       +:+ quoted "start_time" +:+ ":0.5,"
       +:+ quoted "duration" +:+ ":0.25}")%string.
Definition data_note_off : json :=
  JObj [("type", JStr "note_off"); ("note", JStr "A4");
        ("start_time", JNum 0.5); ("duration", JNum 0.25)].

(** [{"type":"note_on","note":"A4","start_time":"soon"}] *)
Definition text_note_on_soon : string :=
  ("{" +:+ quoted "type" +:+ ":" +:+ quoted "note_on" +:+ ","
       +:+ quoted "note" +:+ ":" +:+ quoted "A4" +:+ ","
       +:+ quoted "start_time" +:+ ":" +:+ quoted "soon" +:+ "}")%string.
Definition data_note_on_soon : json :=
  JObj [("type", JStr "note_on"); ("note", JStr "A4"); ("start_time", JStr "soon")].

(** [{"type":"volume","value":0.25}] *)
Definition text_volume : string :=
  ("{" +:+ quoted "type" +:+ ":" +:+ quoted "volume" +:+ ","
       +:+ quoted "value" +:+ ":0.25}")%string.
Definition data_volume : json := JObj [("type", JStr "volume"); ("value", JNum 0.25)].

(** [{"type":"silence_reset"}] *)
Definition text_silence_reset : string :=
  ("{" +:+ quoted "type" +:+ ":" +:+ quoted "silence_reset" +:+ "}")%string.
Definition data_silence_reset : json := JObj [("type", JStr "silence_reset")].

(** [JSON.parse] on these texts and on those of [Samples]. *)
Definition parse_wire (text : string) : option json :=
  if String.eqb text text_note_off then Some data_note_off
  else if String.eqb text text_note_on_soon then Some data_note_on_soon
  else if String.eqb text text_volume then Some data_volume
  else if String.eqb text text_silence_reset then Some data_silence_reset
  else parse_samples text.

(** [{"type":"note_on","note":{"toString":1},"start_time":0.5}] *)
Definition text_note_on_odd : string :=
  ("{" +:+ quoted "type" +:+ ":" +:+ quoted "note_on" +:+ ","
       +:+ quoted "note" +:+ ":{" +:+ quoted "toString" +:+ ":1},"
       +:+ quoted "start_time" +:+ ":0.5}")%string.
Definition data_note_on_odd : json :=
  JObj [("type", JStr "note_on"); ("note", JObj [("toString", JNum 1)]);
        ("start_time", JNum 0.5)].

(** [{"type":"note_off","start_time":0.5,"duration":0.25}] *)
Definition text_note_off_bare : string :=
  ("{" +:+ quoted "type" +:+ ":" +:+ quoted "note_off" +:+ ","
       +:+ quoted "start_time" +:+ ":0.5,"
       +:+ quoted "duration" +:+ ":0.25}")%string.
Definition data_note_off_bare : json :=
  JObj [("type", JStr "note_off"); ("start_time", JNum 0.5); ("duration", JNum 0.25)].

(** [{"type":"note_off","note":"A4","start_time":0.5,"duration":[1]}] *)
Definition text_note_off_list : string :=
  ("{" +:+ quoted "type" +:+ ":" +:+ quoted "note_off" +:+ ","
       +:+ quoted "note" +:+ ":" +:+ quoted "A4" +:+ ","
       +:+ quoted "start_time" +:+ ":0.5,"
       +:+ quoted "duration" +:+ ":[1]}")%string.
Definition data_note_off_list : json :=
  JObj [("type", JStr "note_off"); ("note", JStr "A4");
        ("start_time", JNum 0.5); ("duration", JArr [JNum 1])].

(** [JSON.parse] on these three texts and on those of [parse_wire]. *)
Definition parse_more (text : string) : option json :=
  if String.eqb text text_note_on_odd then Some data_note_on_odd
  else if String.eqb text text_note_off_bare then Some data_note_off_bare
  else if String.eqb text text_note_off_list then Some data_note_off_list
  else parse_wire text.

(** Record, Stop while the microphone prompt is pending (the socket closes),
    Record again, then the user allows the microphone: both pending
    requests are granted, both worklet modules load. *)
Definition stop_during_prompt : list event :=
  [Click; SocketOpen 0; Click; SocketClose 0; Click; SocketOpen 1;
   UserMediaGranted 0; UserMediaGranted 1; ModuleLoaded 0; ModuleLoaded 1].

Definition two_producers : World :=
  Eval vm_compute in run parse_samples stop_during_prompt init.

(** Two clicks before any connection is established; both sockets open; the
    microphone request of the second socket's handler is granted first. *)
Definition reversed_grants : list event :=
  [Click; Click; SocketOpen 0; SocketOpen 1;
   UserMediaGranted 1; UserMediaGranted 0; ModuleLoaded 1; ModuleLoaded 0].

Definition crossed_sessions : World :=
  Eval vm_compute in run parse_samples reversed_grants init.

(** A scope in which the engine owns one buffer and nothing is posted. *)
Definition scope_start : Scope := MkScope {[ 1%positive := [10; 20]%Z ]} [].

(** Three quanta: the engine refills its buffer and calls [process], calls
    it once without input, then refills the same buffer and calls again. *)
Definition three_quanta : list quantum :=
  [Quantum [(1%positive, [1; 2]%Z)] [[1%positive]];
   Quantum [] [];
   Quantum [(1%positive, [3; 4]%Z)] [[1%positive]]].

(** The user has clicked and the socket is connecting. *)
Definition connecting_world : World :=
  Eval vm_compute in run parse_samples [Click] init.

(** The socket is open and the microphone prompt is pending. *)
Definition asking_world : World :=
  Eval vm_compute in run parse_samples [Click; SocketOpen 0] init.


(** Two clicks before any connection is established. *)
Definition double_started : World :=
  Eval vm_compute in run parse_samples [Click; Click] init.

(** Both sockets of a double start are open, and the second session
    streams. *)
Definition two_sessions : World :=
  Eval vm_compute in
    run parse_samples
      [Click; Click; SocketOpen 0; SocketOpen 1; UserMediaGranted 1; ModuleLoaded 1]
      init.

End Wire.

(* ===================================================================== *)
(** * Properties of the processor *)
(* ===================================================================== *)

Section ProcessorFacts.
Import AudioProcessor Samples.

Implicit Types (g : Scope) (l : loc) (buf : list sample).

Lemma process_returns_true ins g : (process ins g).1 = true.
Proof.
  unfold process.
  destruct (ins !! 0%nat) as [input|]; [|done].
  destruct (0 <? length input)%nat; [|done].
  destruct (input !! 0%nat); [|done].
  by destruct (Float32Array_from _ _).
Qed.

Lemma process_without_input ins g :
  ins !! 0%nat = None ∨ ins !! 0%nat = Some [] → (process ins g).2 = g.
Proof. unfold process. by intros [-> | ->]. Qed.

Lemma process_with_input ins ch0 rest g :
  ins !! 0%nat = Some (ch0 :: rest) →
  (process ins g).2 =
    postMessage (Float32Array_from ch0 g).1 (Float32Array_from ch0 g).2.
Proof. unfold process. by intros ->. Qed.

Lemma Float32Array_from_fresh src g : (Float32Array_from src g).1 ∉ dom (heap g).
Proof. apply is_fresh. Qed.

Lemma refill_port g ws : port (foldl refill g ws) = port g.
Proof. revert g. induction ws as [|w ws IH]; intros g; [done|]. by rewrite /= IH. Qed.

Lemma refill_dom g ws : dom (heap g) ⊆ dom (heap (foldl refill g ws)).
Proof.
  revert g. induction ws as [|w ws IH]; intros g; [done|].
  etrans; [|apply IH]. rewrite /= dom_insert. set_solver.
Qed.

Lemma refill_frames_live g ws : frames_live g → frames_live (foldl refill g ws).
Proof.
  unfold frames_live. rewrite refill_port. intros H.
  eapply Forall_impl; [exact H|]. intros m Hm. by apply refill_dom.
Qed.

(** A call of [process] keeps the earlier frames allocated, and the frame it
    adds is none of them. *)
Lemma process_frames ins g :
  frames_live g → NoDup (source <$> port g) →
  frames_live (process ins g).2 ∧ NoDup (source <$> port (process ins g).2).
Proof.
  intros Hlive Hnd. unfold process.
  destruct (ins !! 0%nat) as [input|]; [|done].
  destruct (0 <? length input)%nat; [|done].
  destruct (input !! 0%nat) as [ch0|]; [|done].
  cbn. set (l := fresh (dom (heap g))).
  assert (Hl : l ∉ dom (heap g)) by apply is_fresh.
  split.
  - unfold frames_live. cbn. apply Forall_app. split.
    + eapply Forall_impl; [exact Hlive|]. intros m Hm. cbn in Hm.
      rewrite dom_insert. set_solver.
    + constructor; [|constructor]. cbn. rewrite dom_insert. set_solver.
  - rewrite fmap_app. cbn. apply NoDup_app. split_and!; [done| |apply NoDup_singleton].
    intros x Hx ->%list_elem_of_singleton. apply Hl.
    apply list_elem_of_fmap in Hx as (m & -> & Hm).
    unfold frames_live in Hlive. rewrite Forall_forall in Hlive. by apply Hlive.
Qed.

(** Along any run of the engine from a scope that has posted nothing, the
    frames are pairwise distinct objects. *)
Lemma render_frames_distinct qs g :
  frames_live g → NoDup (source <$> port g) →
  frames_live (render qs g) ∧ NoDup (source <$> port (render qs g)).
Proof.
  revert g. induction qs as [|q qs IH]; intros g Hlive Hnd; [done|].
  cbn. apply IH; apply process_frames; try by apply refill_frames_live.
  all: by rewrite refill_port.
Qed.

(** Writing into one frame of a run leaves every other frame of the run as
    it is. *)
Lemma render_frames_independent qs g i j mi mj k v :
  port g = [] →
  port (render qs g) !! i = Some mi → port (render qs g) !! j = Some mj → i ≠ j →
  heap (Float32Array_set (source mi) k v (render qs g)) !! source mj
  = heap (render qs g) !! source mj.
Proof.
  intros Hport Hi Hj Hij.
  destruct (render_frames_distinct qs g) as [_ Hnd].
  { unfold frames_live. rewrite Hport. constructor. }
  { rewrite Hport. constructor. }
  cbn. apply lookup_alter_ne. intros Heq. apply Hij.
  eapply NoDup_lookup; [exact Hnd| |]; rewrite list_lookup_fmap.
  - by rewrite Hi.
  - by rewrite Hj /= Heq.
Qed.

(** C4.  When [process] is called with an input block, it posts exactly one
    frame; the frame has the contents, hence the length, of channel 0 of the
    block; the frame is a new object, different from the engine's buffer and
    from every frame posted before; no other object changes; and afterwards
    neither a store into the frame changes another object (the block, an
    earlier frame) nor a refill of the engine's buffer changes the frame. *)
Theorem process_emits_fresh_copy ins ch0 rest buf g :
  ins !! 0%nat = Some (ch0 :: rest) →
  heap g !! ch0 = Some buf →
  frames_live g →
  ∃ l, let g' := (process ins g).2 in
    port g' = port g ++ [Message l buf] ∧
    heap g' !! l = Some buf ∧
    (length <$> heap g' !! l) = Some (length buf) ∧
    (l ∉ dom (heap g)) ∧
    l ≠ ch0 ∧
    Forall (fun m => source m ≠ l) (port g) ∧
    (∀ l', l' ≠ l → heap g' !! l' = heap g !! l') ∧
    (∀ i v l', l' ≠ l → heap (Float32Array_set l i v g') !! l' = heap g !! l') ∧
    (∀ i v m, m ∈ port g → heap (Float32Array_set (source m) i v g') !! l = Some buf) ∧
    (∀ buf', heap (engine_write ch0 buf' g') !! l = Some buf).
Proof.
  intros Hin Hch0 Hlive. exists (fresh (dom (heap g))).
  set (l := fresh (dom (heap g))).
  assert (Hl : l ∉ dom (heap g)) by apply is_fresh.
  assert (Hne : l ≠ ch0).
  { intros ->. apply Hl. apply elem_of_dom. by eexists. }
  rewrite (process_with_input _ _ _ _ Hin). cbn. fold l.
  rewrite Hch0 /= lookup_insert_eq /=.
  split_and!; try done.
  - unfold frames_live in Hlive. eapply Forall_impl; [exact Hlive|].
    intros m Hm Heq. apply Hl. by rewrite -Heq.
  - intros l' Hl'. by rewrite lookup_insert_ne.
  - intros i v l' Hl'. by rewrite lookup_alter_ne // lookup_insert_ne.
  - intros i v m Hm. rewrite lookup_alter_ne ?lookup_insert_eq //.
    intros Heq. apply Hl. rewrite -Heq.
    unfold frames_live in Hlive. rewrite Forall_forall in Hlive. by apply Hlive.
  - intros buf'. by rewrite lookup_insert_ne // lookup_insert_eq.
Qed.

Lemma process_emits_fresh_copy_witness :
  ∃ l, let g' := (process [[1%positive]] scope_example).2 in
    port g' = port scope_example ++ [Message l [10; 20; 30; 40]%Z] ∧
    heap g' !! l = Some [10; 20; 30; 40]%Z ∧
    (length <$> heap g' !! l) = Some (length [10; 20; 30; 40]%Z) ∧
    (l ∉ dom (heap scope_example)) ∧
    l ≠ 1%positive ∧
    Forall (fun m => source m ≠ l) (port scope_example) ∧
    (∀ l', l' ≠ l → heap g' !! l' = heap scope_example !! l') ∧
    (∀ i v l', l' ≠ l →
       heap (Float32Array_set l i v g') !! l' = heap scope_example !! l') ∧
    (∀ i v m, m ∈ port scope_example →
       heap (Float32Array_set (source m) i v g') !! l = Some [10; 20; 30; 40]%Z) ∧
    (∀ buf', heap (engine_write 1%positive buf' g') !! l = Some [10; 20; 30; 40]%Z).
Proof.
  apply (process_emits_fresh_copy [[1%positive]] 1%positive [] [10; 20; 30; 40]%Z scope_example).
  - reflexivity.
  - reflexivity.
  - repeat constructor; vm_compute; reflexivity.
Defined.

(** C8.  Every call of [process] returns [true] (keep the processor alive),
    and a call without input (no first input, or a first input without
    channels) posts nothing and changes nothing. *)
Theorem process_keeps_alive ins g :
  (process ins g).1 = true ∧
  (ins !! 0%nat = None ∨ ins !! 0%nat = Some [] →
   (process ins g).2 = g ∧ port (process ins g).2 = port g).
Proof.
  split; [apply process_returns_true|].
  intros H. by rewrite (process_without_input _ _ H).
Qed.

End ProcessorFacts.

(* ===================================================================== *)
(** * Properties of the component's handlers *)
(* ===================================================================== *)

Section HandlerFacts.
Import Js RecordButton Spec Samples.

Variable JSON_parse : string -> option json.

Implicit Types (w : World) (data : json) (text : string).

(** Running a statement on a world: unfold the monad. *)
Ltac exec :=
  unfold mbind, mret, M_bind, M_ret, bind, ret, throw, lift, read, update,
    when, try_catch, console_error, console_log, setIsRecording, record in *.

(** Reading a field of an updated world. *)
Ltac setters :=
  unfold set_isRecording, set_socketRef, set_audioContextRef, set_workletNodeRef,
    set_sockets, set_contexts, set_nodes, set_streams, set_tasks, set_console,
    set_uncaught, set_history in *; cbn in *.

Lemma set_console_id w : set_console (console w) w = w.
Proof. by destruct w. Qed.

Lemma set_console_nil w : set_console (console w ++ []) w = w.
Proof. rewrite app_nil_r. apply set_console_id. Qed.

Lemma eqb_tag_false s tag : s ≠ tag → String.eqb s tag = false.
Proof. intros H. by apply String.eqb_neq. Qed.

(** A message without a recognized tag matches no [case]. *)
Lemma unrecognized_no_case data ty :
  Get data "type" = inr ty → recognized data = false →
  strict_eq_string ty "note_on" = false ∧
  strict_eq_string ty "note_off" = false ∧
  strict_eq_string ty "volume" = false ∧
  strict_eq_string ty "silence_reset" = false.
Proof.
  unfold recognized. intros ->.
  destruct ty as [[| | |s| |]|]; try done. cbn.
  intros Hs%bool_decide_eq_false. unfold tags in Hs.
  split_and!; apply eqb_tag_false; intros ->; apply Hs; set_solver.
Qed.

(** [handleServerEvent] reads nothing of the world and writes the console
    only: what it returns and prints is a function of the message. *)
Lemma handleServerEvent_console data w :
  handleServerEvent data w =
    ((handleServerEvent data init).1,
     set_console (console w ++ console (handleServerEvent data init).2) w).
Proof.
  unfold handleServerEvent, interpolate. exec.
  destruct (Get data "type") as [e|ty]; cbn; [by rewrite set_console_nil|].
  repeat (first
    [ progress cbn
    | rewrite set_console_nil
    | match goal with
      | |- context [if ?b then _ else _] => destruct b
      | |- context [match Get ?d ?k with _ => _ end] => destruct (Get d k)
      | |- context [match toFixed3 ?v with _ => _ end] => destruct (toFixed3 v)
      | |- context [match ?v with Some _ => _ | None => _ end] => destruct v
      end ]); try reflexivity.
Qed.

(** [onmessage] never lets an exception out, and only appends to the
    console what the message alone determines. *)
Lemma socket_onmessage_console text w :
  socket_onmessage JSON_parse text w =
    (inr tt,
     set_console (console w ++ console (socket_onmessage JSON_parse text init).2) w).
Proof.
  unfold socket_onmessage. exec.
  destruct (JSON_parse text) as [data|]; [|done].
  rewrite (handleServerEvent_console data w).
  destruct (handleServerEvent data init) as [[e|[]] w0] eqn:E; cbn; [|done].
  exec. destruct w. cbn. by rewrite -app_assoc.
Qed.

(** ** Outbound frames *)

Lemma port_onmessage_not_open (data : frame) w :
  socketRef w ≫= socket_state w ≠ Some OPEN →
  port_onmessage data w = (inr tt, w).
Proof.
  unfold port_onmessage, WebSocket_send. exec. intros Hst.
  destruct (option_bind _ _ _ _) as [[]|]; first [reflexivity | by destruct Hst].
Qed.

Lemma port_onmessage_open (data : frame) w s out :
  socketRef w = Some s → sockets w !! s = Some (MkSocket OPEN out) →
  port_onmessage data w =
    (inr tt, set_sockets (<[s := MkSocket OPEN (out ++ [data])]> (sockets w)) w).
Proof.
  unfold port_onmessage, WebSocket_send. exec.
  intros Hs Hk. rewrite Hs. cbn. unfold socket_state. rewrite Hk. cbn.
  by rewrite Hk.
Qed.

(** C3.  A frame handed to [port.onmessage] while [socketRef] holds no
    socket, or a socket that is not OPEN, changes nothing at all (nothing is
    transmitted, nothing is kept for later) and raises nothing; a frame
    handed over while the socket is OPEN is appended, whole and as one
    message, to what that socket has transmitted, and nothing else
    changes. *)
Theorem frame_sent_iff_socket_open (data : frame) w :
  (socketRef w ≫= socket_state w ≠ Some OPEN →
   port_onmessage data w = (inr tt, w)) ∧
  (∀ s out, socketRef w = Some s → sockets w !! s = Some (MkSocket OPEN out) →
   port_onmessage data w =
     (inr tt, set_sockets (<[s := MkSocket OPEN (out ++ [data])]> (sockets w)) w) ∧
   sent <$> sockets (port_onmessage data w).2 !! s = Some (out ++ [data]) ∧
   ∀ s', s' ≠ s → sockets (port_onmessage data w).2 !! s' = sockets w !! s').
Proof.
  split; [apply port_onmessage_not_open|].
  intros s out Hs Hk. rewrite (port_onmessage_open data w s out Hs Hk).
  split_and!; [done| |].
  - setters. rewrite list_lookup_insert_eq //. by eapply lookup_lt_Some.
  - intros s' Hne. setters. by rewrite list_lookup_insert_ne.
Qed.

Lemma frame_sent_iff_socket_open_witness :
  port_onmessage [1; 2]%Z init = (inr tt, init) ∧
  port_onmessage [1; 2]%Z streaming_world =
    (inr tt, set_sockets [MkSocket OPEN [[1; 2]%Z]] streaming_world) ∧
  sent <$> sockets (port_onmessage [1; 2]%Z streaming_world).2 !! 0
  = Some [[1; 2]%Z].
Proof.
  split.
  - apply (proj1 (frame_sent_iff_socket_open [1; 2]%Z init)). discriminate.
  - split;
      apply (proj2 (frame_sent_iff_socket_open [1; 2]%Z streaming_world) 0 []);
      reflexivity.
Defined.

(** ** Inbound messages *)

(** C10.  A parsed message whose [type] is ['re_trigger'], or whose [type]
    is ['note_on'] and which has no [note], leaves [handleServerEvent], and
    the [onmessage] handler around it, without any output: the world,
    console included, is what it was, and nothing is thrown. *)
Theorem unhandled_events_discarded text data w :
  JSON_parse text = Some data →
  Get data "type" = inr (Some (JStr "re_trigger")) ∨
  (Get data "type" = inr (Some (JStr "note_on")) ∧ Get data "note" = inr None) →
  handleServerEvent data w = (inr tt, w) ∧
  socket_onmessage JSON_parse text w = (inr tt, w).
Proof.
  intros Hparse Hdata.
  assert (Hh : handleServerEvent data w = (inr tt, w)).
  { unfold handleServerEvent. exec.
    destruct Hdata as [-> | [-> Hnote]]; cbn; [done|]. by rewrite Hnote. }
  split; [done|].
  unfold socket_onmessage. exec. by rewrite Hparse Hh.
Qed.

(** C1, as the code has it.  A message that parses but carries none of the
    five tags in [type] is not rejected: [onmessage] returns normally, no
    variant's line is printed, and the world stays as it was.  The one
    exception is the text [null], on which the read of [type] throws; the
    TypeError is caught and printed under the parse-error label. *)
Theorem unknown_type_ignored text data w :
  JSON_parse text = Some data →
  recognized data = false →
  socket_onmessage JSON_parse text w =
    (inr tt,
     match data with
     | JNull => set_console (console w ++ [error_json_parse TypeError]) w
     | _ => w
     end).
Proof.
  intros Hparse Hrec.
  unfold socket_onmessage, handleServerEvent. exec. rewrite Hparse.
  destruct (Get data "type") as [e|ty] eqn:Hty.
  - destruct data; by inversion Hty.
  - destruct (unrecognized_no_case data ty Hty Hrec) as (-> & -> & -> & ->).
    by destruct data.
Qed.

(** C5.  A text that [JSON.parse] refuses makes [onmessage] print one
    parse-error entry and nothing else: the handler returns normally, the
    session (recording flag, references, sockets, contexts, nodes) is
    untouched, nothing is left uncaught, and any later message is handled
    as it would have been, returning normally and printing the same
    entries. *)
Theorem malformed_message_isolated text w :
  JSON_parse text = None →
  let w1 := set_console (console w ++ [error_json_parse SyntaxError]) w in
  socket_onmessage JSON_parse text w = (inr tt, w1) ∧
  (∀ s, socket_state w s = Some OPEN →
        step JSON_parse w (SocketMessage s text) = w1) ∧
  (isRecording w1 = isRecording w ∧ socketRef w1 = socketRef w ∧
   audioContextRef w1 = audioContextRef w ∧ sockets w1 = sockets w ∧
   contexts w1 = contexts w ∧ nodes w1 = nodes w ∧ uncaught w1 = uncaught w) ∧
  (∀ text', (socket_onmessage JSON_parse text' w1).1 = inr tt ∧
            printed (socket_onmessage JSON_parse text') w1
            = printed (socket_onmessage JSON_parse text') w).
Proof.
  intros Hparse w1.
  assert (Hm : socket_onmessage JSON_parse text w = (inr tt, w1)).
  { unfold socket_onmessage. exec. by rewrite Hparse. }
  split_and!; try done.
  - intros s Hs. unfold step, handle. by rewrite Hs Hm.
  - intros text'. unfold printed.
    rewrite (socket_onmessage_console text' w1) (socket_onmessage_console text' w).
    cbn. by rewrite !drop_app_length.
Qed.

(** ** Teardown *)

Lemma WebSocket_close_eq s w :
  WebSocket_close s w = (inr tt, set_sockets (closing s (sockets w)) w).
Proof.
  unfold WebSocket_close, closing. exec.
  destruct (sockets w !! s) as [[[] out]|]; try done; by destruct w.
Qed.

Lemma stopAudio_eq w : stopAudio w = (inr tt, stopped w).
Proof.
  unfold stopAudio, stopped, AudioContext_close. exec.
  destruct (audioContextRef w) as [c|] eqn:Hc, (socketRef w) as [s|] eqn:Hs;
    cbn; rewrite ?Hs ?WebSocket_close_eq; exec; setters; by rewrite ?Hs ?Hc.
Qed.

Lemma socket_onclose_eq w : socket_onclose w = (inr tt, stopped w).
Proof. unfold socket_onclose. exec. cbn. rewrite stopAudio_eq. by destruct w. Qed.

Lemma closing_released s l k :
  l !! s = Some k → 
  readyState <$> closing s l !! s = Some CLOSING ∨
  readyState <$> closing s l !! s = Some CLOSED.
Proof.
  intros Hk. unfold closing. rewrite Hk.
  assert (s < length l) by by eapply lookup_lt_Some.
  destruct k as [[] out]; rewrite ?list_lookup_insert_eq ?Hk; auto.
Qed.

Lemma stopped_stopped w : stopped (stopped w) = stopped w.
Proof. done. Qed.

(** C7.  [stopAudio] run twice in a row, from any world, returns normally
    both times and ends in the world that one run ends in; in that world
    the recording flag is off, both references are cleared, the socket that
    was referenced is closing or closed, and the audio context that was
    referenced is closed. *)
Theorem stopAudio_idempotent w :
  (stopAudio;; stopAudio) w = stopAudio w ∧
  ∃ w1, stopAudio w = (inr tt, w1) ∧ stopAudio w1 = (inr tt, w1) ∧
        isRecording w1 = false ∧ socketRef w1 = None ∧ audioContextRef w1 = None ∧
        (∀ s, socketRef w = Some s → is_Some (sockets w !! s) → released w1 s) ∧
        (∀ c, audioContextRef w = Some c → is_Some (contexts w !! c) →
              contexts w1 !! c = Some closed).
Proof.
  split.
  - unfold mbind, M_bind, bind. by rewrite !stopAudio_eq.
  - exists (stopped w). rewrite !stopAudio_eq. split_and!; try done.
    + intros s Hs [k Hk]. unfold released, socket_state. cbn. rewrite Hs.
      by eapply closing_released.
    + intros c Hc [k Hk]. cbn. rewrite Hc. apply list_lookup_insert_eq.
      by eapply lookup_lt_Some.
Qed.

Lemma deliveries_dropped fs w :
  socketRef w = None → run JSON_parse (deliveries fs) w = w.
Proof.
  intros Href. induction fs as [|[n data] fs IH]; [done|].
  cbn. destruct (nodes w !! n) as [[c [] b]|]; try done.
  unfold handle.
  rewrite (port_onmessage_not_open data w); [by rewrite Href|exact IH].
Qed.

(** When the socket that [socketRef] holds closes while the component is
    streaming, the [onclose] handler does what [stopAudio] does: it returns
    normally, the recording flag is off, both references are cleared, the
    audio context that [audioContextRef] held is closed, and nothing is left
    uncaught.  Frames that arrive from the worklet right afterwards leave
    the world, hence every socket's transmitted messages, unchanged.  This
    is about what the references hold; [remote_close_leaves_context_running]
    shows what it leaves out. *)
Theorem remote_close_tears_down w s c n :
  Streaming w s c n →
  let w1 := step JSON_parse w (SocketClose s) in
  w1 = (stopAudio (set_readyState s CLOSED w)).2 ∧
  (stopAudio (set_readyState s CLOSED w)).1 = inr tt ∧
  isRecording w1 = false ∧ socketRef w1 = None ∧ audioContextRef w1 = None ∧
  contexts w1 !! c = Some closed ∧
  socket_state w1 s = Some CLOSED ∧
  uncaught w1 = uncaught w ∧
  (∀ fs, run JSON_parse (deliveries fs) w1 = w1 ∧
         sockets (run JSON_parse (deliveries fs) w1) = sockets w1).
Proof.
  intros (Hrec & Hs & Hst & Hc & Hctx & Hn & Hnode) w1.
  assert (Hw1 : w1 = stopped (set_readyState s CLOSED w)).
  { unfold w1, step, handle. by rewrite Hst socket_onclose_eq. }
  unfold socket_state in Hst.
  destruct (sockets w !! s) as [k|] eqn:Hk; [|done].
  assert (Hlt : s < length (sockets w)) by by eapply lookup_lt_Some.
  rewrite stopAudio_eq. split_and!; try done; rewrite Hw1; try done.
  - unfold set_readyState, stopped. rewrite Hk. setters. rewrite Hc.
    apply list_lookup_insert_eq. by eapply lookup_lt_Some.
  - unfold socket_state, set_readyState, stopped. rewrite Hk. setters. rewrite Hs.
    unfold closing. rewrite !list_lookup_insert_eq //.
  - unfold set_readyState. by rewrite Hk.
  - intros fs. by rewrite deliveries_dropped.
Qed.

(** ** Failure of the audio setup *)

Lemma audio_setup_failed_eq err w :
  audio_setup_failed err w =
    (inr tt,
     set_isRecording false
       (set_sockets
          (match socketRef w with
           | Some s => closing s (sockets w)
           | None => sockets w
           end)
          (set_console (console w ++ [error_audio_setup err]) w))).
Proof.
  unfold audio_setup_failed. exec. setters.
  destruct (socketRef w) as [s|] eqn:Hs; [|done].
  rewrite WebSocket_close_eq. by setters.
Qed.

(** When the microphone is refused while [socketRef] still holds the
    socket whose [open] handler asked for it, that socket is closed, the
    recording flag is cleared, the error is printed, and nothing is left
    uncaught. *)
Lemma device_failure_closes_referenced_socket w t s err :
  tasks w !! t = Some (MkTask s AwaitUserMedia) →
  socketRef w = Some s → is_Some (sockets w !! s) →
  let w1 := step JSON_parse w (UserMediaDenied t err) in
  isRecording w1 = false ∧
  console w1 = console w ++ [error_audio_setup err] ∧
  released w1 s ∧
  uncaught w1 = uncaught w.
Proof.
  intros Ht Hs [k Hk] w1. unfold w1, step, handle, set_stage. rewrite Ht. exec.
  rewrite Ht. cbn. rewrite audio_setup_failed_eq. setters. rewrite Hs.
  split_and!; try done.
  unfold released, socket_state. cbn. by eapply closing_released.
Qed.

(** ** The order of connection, device and wiring *)

Lemma ordered_nil : ordered [].
Proof. intros [|??] ?? H; discriminate H. Qed.

Lemma ordered_snoc h e : ordered h → requires e h → ordered (h ++ [e]).
Proof.
  intros Hh He before e' after.
  destruct after as [|x after _] using rev_ind.
  - intros [-> ->]%(app_inj_tail h before e e'). done.
  - rewrite app_comm_cons app_assoc.
    intros [-> ->]%app_inj_tail. by eapply Hh.
Qed.

Lemma ordered_prefix h1 h2 : ordered (h1 ++ h2) → ordered h1.
Proof.
  intros H before e after ->. apply (H before e (after ++ h2)).
  by rewrite -app_assoc.
Qed.

Lemma ordered_elem h e :
  ordered h → e ∈ h → ∃ before after, h = before ++ e :: after ∧ requires e before.
Proof.
  intros Hh (before & after & ->)%list_elem_of_split.
  exists before, after. split; [done|]. by eapply Hh.
Qed.

(** In an ordered history, whatever an effect requires is found before it,
    and so is everything that this requires in turn. *)
Lemma ordered_established before e after :
  ordered (before ++ e :: after) → established e before.
Proof.
  intros Hall.
  assert (Hb : ordered before) by by eapply ordered_prefix.
  assert (He : requires e before) by by eapply Hall.
  assert (up : ∀ e' , e' ∈ before → ∃ b a, before = b ++ e' :: a ∧ requires e' b)
    by (intros; by apply ordered_elem).
  assert (Hready : ∀ s, Ready s ∈ before → NewWebSocket s ∈ before).
  { intros s (b & a & -> & Hr)%up. cbn in Hr. set_solver. }
  assert (Hget : ∀ s, GetUserMedia s ∈ before → Ready s ∈ before).
  { intros s (b & a & -> & Hr)%up. cbn in Hr. set_solver. }
  assert (Hgranted : ∀ s, Granted s ∈ before → GetUserMedia s ∈ before).
  { intros s (b & a & -> & Hr)%up. cbn in Hr. set_solver. }
  assert (Hinst : ∀ s n, Installed s n ∈ before → Granted s ∈ before).
  { intros s n (b & a & -> & Hr)%up. cbn in Hr. set_solver. }
  destruct e; cbn in *; naive_solver.
Qed.

Lemma coherent_init : coherent init.
Proof.
  split_and!; cbn; [apply ordered_nil|lia| |]; intros; by rewrite ->lookup_nil in *.
Qed.

Lemma coherent_same w w' :
  coherent w → history w' = history w → tasks w' = tasks w →
  length (sockets w') = length (sockets w) → coherent w'.
Proof. intros (?&?&?&?) Hh Ht Hl. unfold coherent. rewrite Hh Ht Hl. done. Qed.

Lemma coherent_finished w t s :
  coherent w → coherent (set_tasks (<[t := MkTask s Finished]> (tasks w)) w).
Proof.
  intros (Ho & Hs & Hu & Hm). split_and!; setters; try done.
  - intros t' s' [(_ & [=] & _) | [_ H]]%list_lookup_insert_Some. by eapply Hu.
  - intros t' s' st c [(_ & [=] & _) | [_ H]]%list_lookup_insert_Some.
    by eapply Hm.
Qed.

Lemma length_closing s l : length (closing s l) = length l.
Proof.
  unfold closing. destruct (l !! s) as [[[] ?]|]; by rewrite ?length_insert.
Qed.

Lemma coherent_stopped w : coherent w → coherent (stopped w).
Proof.
  intros H. eapply coherent_same; [exact H|done..|]. cbn.
  destruct (socketRef w); by rewrite ?length_closing.
Qed.

Lemma coherent_set_readyState s r w : coherent w → coherent (set_readyState s r w).
Proof.
  intros H. unfold set_readyState. destruct (sockets w !! s); [|done].
  eapply coherent_same; [exact H|done..|]. setters. by rewrite length_insert.
Qed.

Lemma coherent_audio_setup_failed err w :
  coherent w → coherent (handle (audio_setup_failed err) w).
Proof.
  intros H. unfold handle. rewrite audio_setup_failed_eq.
  eapply coherent_same; [exact H|done..|]. setters.
  destruct (socketRef w); by rewrite ?length_closing.
Qed.

Lemma coherent_port_onmessage (data : frame) w :
  coherent w → coherent (handle (port_onmessage data) w).
Proof.
  intros H. unfold handle.
  destruct (socketRef w ≫= socket_state w) as [r|] eqn:Ho;
    [destruct r|];
    try (rewrite (port_onmessage_not_open data w); [by rewrite Ho|exact H]).
  destruct (socketRef w) as [s|] eqn:Hs; [|done]. cbn in Ho.
  unfold socket_state in Ho.
  destruct (sockets w !! s) as [[r out]|] eqn:Hk; [|done].
  cbn in Ho. injection Ho as ->.
  rewrite (port_onmessage_open data w s out Hs Hk).
  eapply coherent_same; [exact H|done..|]. setters. by rewrite length_insert.
Qed.

(** One turn of the event loop keeps the history coherent. *)
Lemma step_coherent w ev : coherent w → coherent (step JSON_parse w ev).
Proof.
  intros H. destruct ev as [| |s|s text|s|t|t err|t|t err|n data]; cbn.
  - (* Click *)
    destruct (isRecording w).
    + unfold handle. rewrite stopAudio_eq. by apply coherent_stopped.
    + destruct H as (Ho & Hs & Hu & Hm).
      unfold handle, startStreaming, WebSocket_new. exec. setters.
      split_and!; cbn.
      * by apply ordered_snoc.
      * intros s. rewrite length_app /=. intros Hlt.
        destruct (decide (s = length (sockets w))) as [->|]; [set_solver|].
        apply elem_of_app. left. apply Hs. lia.
      * intros t s Ht. apply elem_of_app. left. by eapply Hu.
      * intros t s st c Ht. apply elem_of_app. left. by eapply Hm.
  - (* Unmount *)
    unfold handle. rewrite stopAudio_eq. by apply coherent_stopped.
  - (* SocketOpen *)
    destruct (socket_state w s) as [[]|] eqn:Hst; try done.
    assert (Hlt : s < length (sockets w)).
    { unfold socket_state in Hst. destruct (sockets w !! s) eqn:Hk; [|done].
      by eapply lookup_lt_Some. }
    apply (coherent_set_readyState s OPEN) in H.
    assert (Hlt' : s < length (sockets (set_readyState s OPEN w))).
    { unfold set_readyState. destruct (sockets w !! s); [|done].
      setters. by rewrite length_insert. }
    revert H Hlt'. generalize (set_readyState s OPEN w). clear w Hst Hlt.
    intros w (Ho & Hs & Hu & Hm) Hlt.
    unfold handle, socket_onopen. exec. setters.
    split_and!; cbn.
    * apply ordered_snoc; [apply ordered_snoc|]; cbn; [done|by apply Hs|set_solver].
    * intros s' Hs'. rewrite !elem_of_app. left. left. by apply Hs.
    * intros t s' [Ht|[_ Ht]]%lookup_app_Some.
      -- rewrite !elem_of_app. left. left. by eapply Hu.
      -- destruct (t - length (tasks w)); [|done]. injection Ht as <-. set_solver.
    * intros t s' st c [Ht|[_ Ht]]%lookup_app_Some.
      -- rewrite !elem_of_app. left. left. by eapply Hm.
      -- by destruct (t - length (tasks w)).
  - (* SocketMessage *)
    assert (Hm : coherent (handle (socket_onmessage JSON_parse text) w)).
    { unfold handle. rewrite socket_onmessage_console.
      by eapply coherent_same; [exact H|..]. }
    by destruct (socket_state w s) as [[]|].
  - (* SocketClose *)
    assert (Hc : coherent (handle socket_onclose (set_readyState s CLOSED w))).
    { unfold handle. rewrite socket_onclose_eq.
      by apply coherent_stopped, coherent_set_readyState. }
    by destruct (socket_state w s) as [[]|].
  - (* UserMediaGranted *)
    destruct (tasks w !! t) as [[s []]|] eqn:Ht; try done.
    destruct H as (Ho & Hs & Hu & Hm).
    unfold handle, onopen_with_stream, AudioContext_new, set_stage. exec. setters.
    rewrite Ht. setters.
    split_and!; cbn.
    * apply ordered_snoc; [done|]. cbn. by eapply Hu.
    * intros s' Hs'. apply elem_of_app. left. by apply Hs.
    * intros t' s' [(_ & [=] & _) | [_ H]]%list_lookup_insert_Some.
      apply elem_of_app. left. by eapply Hu.
    * intros t' s' st c [(_ & [= <- _ _] & _) | [_ H]]%list_lookup_insert_Some.
      -- set_solver.
      -- apply elem_of_app. left. by eapply Hm.
  - (* UserMediaDenied *)
    destruct (tasks w !! t) as [[s []]|] eqn:Ht; try done.
    unfold handle, set_stage. exec. rewrite Ht.
    apply (coherent_audio_setup_failed err), coherent_finished, H.
  - (* ModuleLoaded *)
    destruct (tasks w !! t) as [[s [|stream c|]]|] eqn:Ht; try done.
    destruct H as (Ho & Hs & Hu & Hm).
    unfold handle, onopen_with_module, AudioWorkletNode_new, set_stage.
    exec. setters. rewrite Ht. setters.
    split_and!; cbn.
    * apply ordered_snoc; [apply ordered_snoc|]; cbn; [done|by eapply Hm|set_solver].
    * intros s' Hs'. rewrite !elem_of_app. left. left. by apply Hs.
    * intros t' s' [(_ & [=] & _) | [_ H]]%list_lookup_insert_Some.
      rewrite !elem_of_app. left. left. by eapply Hu.
    * intros t' s' st c' [(_ & [=] & _) | [_ H]]%list_lookup_insert_Some.
      rewrite !elem_of_app. left. left. by eapply Hm.
  - (* ModuleFailed *)
    destruct (tasks w !! t) as [[s [|stream c|]]|] eqn:Ht; try done.
    unfold handle, set_stage. exec. rewrite Ht.
    apply (coherent_audio_setup_failed err), coherent_finished, H.
  - (* PortMessage *)
    destruct (nodes w !! n) as [[c [] b]|]; try done.
    by apply coherent_port_onmessage.
Qed.

Lemma run_coherent evs w : coherent w → coherent (run JSON_parse evs w).
Proof.
  revert w. induction evs as [|ev evs IH]; intros w H; [done|].
  cbn. by apply IH, step_coherent.
Qed.

(** C2, as the code has it.  In every run of the component from its
    initial state, whatever has happened before an effect includes what
    the effect depends on: the microphone is requested, and granted, only
    after the socket of the session was created and its transport
    signalled ready; the producer node is installed, and its port wired to
    the sending handler, only after that and after the microphone was
    granted.  The connection comes first, the device second. *)
Theorem connection_precedes_device evs before e after :
  history (run JSON_parse evs init) = before ++ e :: after →
  established e before.
Proof.
  intros Hh. apply (ordered_established before e after).
  rewrite -Hh. apply run_coherent, coherent_init.
Qed.

End HandlerFacts.

(** The handlers on concrete messages. *)
Section HandlerExamples.
Import Js RecordButton Spec Samples.

Lemma unhandled_events_discarded_witness :
  (handleServerEvent data_re_trigger streaming_world = (inr tt, streaming_world) ∧
   socket_onmessage parse_samples text_re_trigger streaming_world
   = (inr tt, streaming_world)) ∧
  (handleServerEvent data_note_on_bare streaming_world = (inr tt, streaming_world) ∧
   socket_onmessage parse_samples text_note_on_bare streaming_world
   = (inr tt, streaming_world)).
Proof.
  split.
  - apply (unhandled_events_discarded parse_samples text_re_trigger data_re_trigger);
      [reflexivity | left; reflexivity].
  - apply (unhandled_events_discarded parse_samples text_note_on_bare data_note_on_bare);
      [reflexivity | right; split; reflexivity].
Defined.

(** C1, as the claim has it, fails: the message [{"type":"chord"}] parses,
    its tag is none of the five, and yet [onmessage] neither throws nor
    writes anything on the error channel; the world is left as it was. *)
Lemma unknown_type_not_rejected :
  parse_samples text_chord = Some data_chord ∧
  recognized data_chord = false ∧
  socket_onmessage parse_samples text_chord streaming_world = (inr tt, streaming_world) ∧
  ¬ rejects (handleServerEvent data_chord) streaming_world ∧
  ¬ rejects (socket_onmessage parse_samples text_chord) streaming_world.
Proof.
  split_and!; try reflexivity.
  - intros [[e He] | (e & He & _)]; [discriminate He|].
    vm_compute in He. by apply elem_of_nil in He.
  - intros [[e He] | (e & He & _)]; [discriminate He|].
    vm_compute in He. by apply elem_of_nil in He.
Qed.

Lemma unknown_type_ignored_witness :
  socket_onmessage parse_samples text_untyped streaming_world
  = (inr tt, streaming_world) ∧
  socket_onmessage parse_samples "null" streaming_world
  = (inr tt, set_console (console streaming_world ++ [error_json_parse TypeError])
               streaming_world).
Proof.
  split.
  - apply (unknown_type_ignored parse_samples text_untyped data_untyped);
      vm_compute; reflexivity.
  - apply (unknown_type_ignored parse_samples "null" JNull);
      vm_compute; reflexivity.
Defined.

Lemma malformed_message_isolated_witness :
  let w1 := set_console (console streaming_world ++ [error_json_parse SyntaxError])
              streaming_world in
  socket_onmessage parse_samples text_broken streaming_world = (inr tt, w1) ∧
  (∀ s, socket_state streaming_world s = Some OPEN →
        step parse_samples streaming_world (SocketMessage s text_broken) = w1) ∧
  (isRecording w1 = isRecording streaming_world ∧
   socketRef w1 = socketRef streaming_world ∧
   audioContextRef w1 = audioContextRef streaming_world ∧
   sockets w1 = sockets streaming_world ∧
   contexts w1 = contexts streaming_world ∧ nodes w1 = nodes streaming_world ∧
   uncaught w1 = uncaught streaming_world) ∧
  (∀ text', (socket_onmessage parse_samples text' w1).1 = inr tt ∧
            printed (socket_onmessage parse_samples text') w1
            = printed (socket_onmessage parse_samples text') streaming_world).
Proof.
  apply (malformed_message_isolated parse_samples text_broken streaming_world).
  reflexivity.
Defined.

Lemma remote_close_tears_down_witness :
  Streaming streaming_world 0 0 0 ∧
  let w1 := step parse_samples streaming_world (SocketClose 0) in
  w1 = (stopAudio (set_readyState 0 CLOSED streaming_world)).2 ∧
  (stopAudio (set_readyState 0 CLOSED streaming_world)).1 = inr tt ∧
  isRecording w1 = false ∧ socketRef w1 = None ∧ audioContextRef w1 = None ∧
  contexts w1 !! 0 = Some closed ∧
  socket_state w1 0 = Some CLOSED ∧
  uncaught w1 = uncaught streaming_world ∧
  (∀ fs, run parse_samples (deliveries fs) w1 = w1 ∧
         sockets (run parse_samples (deliveries fs) w1) = sockets w1).
Proof.
  assert (H : Streaming streaming_world 0 0 0) by (repeat split; reflexivity).
  split; [exact H|].
  exact (remote_close_tears_down parse_samples streaming_world 0 0 0 H).
Defined.

(** C9 on the code.  Two clicks before the first connection is
    established create two sockets, and [socketRef] holds the second.  When
    the first socket opens and the microphone is then refused, the [catch]
    block prints the error and clears the recording flag, but the socket it
    closes is the second one: the socket whose [open] handler asked for the
    microphone stays OPEN.  Once the second socket's [close] event has run
    [stopAudio], no reference to the first socket is left. *)
Theorem device_failure_after_double_start :
  let w1 := run parse_samples double_start_denied init in
  let w2 := step parse_samples w1 (SocketClose 1) in
  tasks w1 = [MkTask 0 Finished] ∧
  isRecording w1 = false ∧
  console w1 = [log_connected; error_audio_setup NotAllowedError] ∧
  uncaught w1 = [] ∧
  socketRef w1 = Some 1 ∧
  socket_state w1 1 = Some CLOSING ∧
  socket_state w1 0 = Some OPEN ∧
  ¬ released w1 0 ∧
  socketRef w2 = None ∧ socket_state w2 0 = Some OPEN.
Proof.
  cbv zeta. split_and!; try (vm_compute; reflexivity).
  intros [H | H]; vm_compute in H; discriminate H.
Qed.

(** C2, as the claim has it, fails: the first click creates the socket,
    and at that point no microphone has been requested, let alone granted,
    and no producer node exists. *)
Lemma connection_opened_before_device :
  let w := run parse_samples [Click] init in
  sockets w = [MkSocket CONNECTING []] ∧
  history w = [NewWebSocket 0] ∧
  tasks w = [] ∧ streams w = 0 ∧ nodes w = [] ∧
  ¬ connects_after_device w.
Proof.
  cbv zeta. split_and!; try reflexivity.
  intros H. destruct H as [H _]; [discriminate|]. by apply H.
Qed.

Lemma connection_precedes_device_witness :
  history (run parse_samples start_session init)
  = [NewWebSocket 0; Ready 0; GetUserMedia 0; Granted 0; Installed 0 0]
      ++ Wired 0 0 :: [] ∧
  established (Wired 0 0)
    [NewWebSocket 0; Ready 0; GetUserMedia 0; Granted 0; Installed 0 0].
Proof.
  assert (H : history (run parse_samples start_session init)
              = [NewWebSocket 0; Ready 0; GetUserMedia 0; Granted 0; Installed 0 0]
                  ++ Wired 0 0 :: []) by (vm_compute; reflexivity).
  split; [exact H|].
  exact (connection_precedes_device parse_samples start_session _ (Wired 0 0) [] H).
Defined.

Import Wire.

(** C6 on the code.  The user clicks Record, clicks Stop while the
    microphone prompt is pending, clicks Record again and then allows the
    microphone.  The handler of the first socket was not cancelled by Stop:
    it creates an audio context and a producer of its own, and the second
    handler replaces it in [audioContextRef].  The component is then
    streaming on the second socket.  When that socket closes, [onclose] runs
    [stopAudio], which closes the one context the reference holds: the
    first context keeps running with its producer wired, and after the next
    start its frames go out on the new connection.  The same happens after
    a double start with the grants in reverse order: the context that is
    closed belongs to the other socket's handler, the closing socket's own
    context keeps running, and the other socket stays open. *)
Theorem remote_close_leaves_context_running :
  let w1 := step parse_samples two_producers (SocketClose 1) in
  let w2 := run parse_samples [Click; SocketOpen 2; PortMessage 0 [7]%Z] w1 in
  let v1 := step parse_samples crossed_sessions (SocketClose 1) in
  Streaming two_producers 1 1 1 ∧
  contexts two_producers = [running; running] ∧
  isRecording w1 = false ∧ socketRef w1 = None ∧ audioContextRef w1 = None ∧
  contexts w1 = [running; closed] ∧
  nodes w1 !! 0 = Some (MkNode 0 true true) ∧
  sent <$> sockets w2 !! 2 = Some [[7]%Z] ∧
  Streaming crossed_sessions 1 1 1 ∧
  tasks crossed_sessions = [MkTask 0 Finished; MkTask 1 Finished] ∧
  nodes crossed_sessions = [MkNode 0 true true; MkNode 1 true true] ∧
  history crossed_sessions
  = [NewWebSocket 0; NewWebSocket 1; Ready 0; GetUserMedia 0; Ready 1;
     GetUserMedia 1; Granted 1; Granted 0; Installed 1 0; Wired 1 0;
     Installed 0 1; Wired 0 1] ∧
  contexts v1 = [running; closed] ∧
  socket_state v1 0 = Some OPEN ∧ socket_state v1 1 = Some CLOSED ∧
  socketRef v1 = None ∧ audioContextRef v1 = None.
Proof.
  cbv zeta. unfold Streaming. split_and!; vm_compute; reflexivity.
Qed.

End HandlerExamples.

(* ===================================================================== *)
(** * Further properties of the processor *)
(* ===================================================================== *)

Section ProcessorRuns.
Import AudioProcessor Samples Runs.

Implicit Types (g : Scope) (l : loc) (q : quantum) (qs : list quantum).

Lemma refill_heap_other g ws l :
  Forall (fun w => w.1 ≠ l) ws → heap (foldl refill g ws) !! l = heap g !! l.
Proof.
  revert g. induction ws as [|w ws IH]; intros g Hws; [done|].
  inversion Hws; subst. rewrite /= IH //=. by rewrite lookup_insert_ne.
Qed.

Lemma process_port ins g :
  port (process ins g).2 =
    port g ++ match ins !! 0%nat with
              | Some (ch0 :: _) =>
                  [Message (fresh (dom (heap g))) (default [] (heap g !! ch0))]
              | _ => []
              end.
Proof.
  unfold process. destruct (ins !! 0%nat) as [[|ch0 rest]|]; cbn;
    rewrite ?app_nil_r ?lookup_insert_eq //.
Qed.

Lemma process_heap_old ins g l :
  l ∈ dom (heap g) → heap (process ins g).2 !! l = heap g !! l.
Proof.
  intros Hl. unfold process. destruct (ins !! 0%nat) as [[|ch0 rest]|]; cbn; try done.
  apply lookup_insert_ne. intros <-. by apply (is_fresh (dom (heap g))).
Qed.

Lemma process_dom ins g : dom (heap g) ⊆ dom (heap (process ins g).2).
Proof.
  intros l Hl. apply elem_of_dom. rewrite process_heap_old //. by apply elem_of_dom.
Qed.

(** X1.  A call of [process] changes no typed array that exists when it is
    called, the engine's input buffers included, and it posts at most one
    message, after the messages posted before. *)
Theorem process_leaves_objects ins g :
  (∀ l, l ∈ dom (heap g) → heap (process ins g).2 !! l = heap g !! l) ∧
  dom (heap g) ⊆ dom (heap (process ins g).2) ∧
  ∃ new, port (process ins g).2 = port g ++ new ∧ (length new ≤ 1)%nat.
Proof.
  split_and!.
  - intros l. apply process_heap_old.
  - apply process_dom.
  - rewrite process_port. eexists. split; [done|].
    destruct (ins !! 0%nat) as [[|??]|]; cbn; lia.
Qed.

Lemma render_quantum_payloads g q :
  payload <$> port (render_quantum g q)
  = (payload <$> port g) ++ option_list (block g q).
Proof.
  unfold render_quantum, block. rewrite process_port refill_port fmap_app.
  f_equal. by destruct (inputs q !! 0%nat) as [[|??]|].
Qed.

Lemma render_payloads qs g :
  payload <$> port (render qs g) = (payload <$> port g) ++ blocks qs g.
Proof.
  revert g. induction qs as [|q qs IH]; intros g; cbn.
  - by rewrite app_nil_r.
  - unfold render in IH. by rewrite IH render_quantum_payloads app_assoc.
Qed.

(** X2.  Along a run of the engine the processor posts one message for each
    quantum that has an input, in the order of the quanta, and the contents
    of each message are those of channel 0 at the time of its quantum,
    whatever the engine writes into its buffers later. *)
Theorem render_posts_blocks qs g :
  payload <$> port (render qs g) = (payload <$> port g) ++ blocks qs g ∧
  length (port (render qs g)) = (length (port g) + length (blocks qs g))%nat.
Proof.
  split; [apply render_payloads|].
  by rewrite -(length_fmap payload) render_payloads length_app length_fmap.
Qed.

Lemma refill_frames_hold E g ws :
  Forall (fun w => w.1 ∈ E) ws → frames_hold E g → frames_hold E (foldl refill g ws).
Proof.
  intros Hws [HE Hfr]. split.
  - etrans; [exact HE|]. apply refill_dom.
  - rewrite refill_port. eapply Forall_impl; [exact Hfr|].
    intros m [Hm Hh]. split; [done|]. rewrite refill_heap_other //.
    eapply Forall_impl; [exact Hws|]. intros w Hw Heq. apply Hm. by rewrite -Heq.
Qed.

Lemma process_frames_hold E ins g :
  frames_hold E g → frames_hold E (process ins g).2.
Proof.
  intros [HE Hfr]. split.
  - etrans; [exact HE|]. apply process_dom.
  - rewrite process_port. apply Forall_app. split.
    + eapply Forall_impl; [exact Hfr|]. intros m [Hm Hh]. split; [done|].
      rewrite process_heap_old //. apply elem_of_dom. by eexists.
    + destruct (ins !! 0%nat) as [[|ch0 rest]|] eqn:Hin; try constructor; [|constructor].
      cbn. split.
      * intros Hf. by apply (is_fresh (dom (heap g))), HE.
      * unfold process. rewrite Hin. cbn. by rewrite lookup_insert_eq.
Qed.

Lemma render_frames_hold E qs g :
  engine_owned E qs → frames_hold E g → frames_hold E (render qs g).
Proof.
  revert g. induction qs as [|q qs IH]; intros g Hqs Hg; [done|].
  inversion Hqs; subst. cbn. apply IH; [done|].
  by apply process_frames_hold, refill_frames_hold.
Qed.

(** X3.  When the engine only ever refills buffers it had before the run,
    every frame posted during the run still holds, at the end of the run,
    exactly the samples that were posted: reuse of the input buffers never
    reaches a frame. *)
Theorem render_frames_keep_payload qs g :
  port g = [] →
  engine_owned (dom (heap g)) qs →
  Forall (fun m => heap (render qs g) !! source m = Some (payload m))
         (port (render qs g)).
Proof.
  intros Hport Hqs.
  destruct (render_frames_hold (dom (heap g)) qs g Hqs) as [_ H].
  { split; [done|]. rewrite Hport. constructor. }
  eapply Forall_impl; [exact H|]. by intros m [_ Hm].
Qed.

(** X4.  Along a run from a scope that has posted nothing, a store into one
    posted frame leaves every other posted frame as it is. *)
Theorem render_frames_isolated qs g i j mi mj k v :
  port g = [] →
  port (render qs g) !! i = Some mi → port (render qs g) !! j = Some mj → i ≠ j →
  source mi ≠ source mj ∧
  heap (Float32Array_set (source mi) k v (render qs g)) !! source mj
  = heap (render qs g) !! source mj.
Proof.
  intros Hport Hi Hj Hij.
  destruct (render_frames_distinct qs g) as [_ Hnd].
  { unfold frames_live. rewrite Hport. constructor. }
  { rewrite Hport. constructor. }
  assert (Hne : source mi ≠ source mj).
  { intros Heq. apply Hij.
    eapply NoDup_lookup; [exact Hnd| |]; rewrite list_lookup_fmap.
    - by rewrite Hi.
    - by rewrite Hj /= Heq. }
  split; [done|]. cbn. by apply lookup_alter_ne.
Qed.

End ProcessorRuns.

(* ===================================================================== *)
(** * Further properties of the component *)
(* ===================================================================== *)

Section LoopFacts.
Import Js RecordButton Spec Samples Runs.

Variable JSON_parse : string -> option json.

Implicit Types (w : World) (ev : event) (evs : list event).

Ltac exec :=
  unfold mbind, mret, M_bind, M_ret, bind, ret, throw, lift, read, update,
    when, try_catch, console_error, console_log, setIsRecording, record in *.

Ltac setters :=
  unfold set_isRecording, set_socketRef, set_audioContextRef, set_workletNodeRef,
    set_sockets, set_contexts, set_nodes, set_streams, set_tasks, set_console,
    set_uncaught, set_history in *; cbn in *.

Ltac fields :=
  unfold set_isRecording, set_socketRef, set_audioContextRef, set_workletNodeRef,
    set_sockets, set_contexts, set_nodes, set_streams, set_tasks, set_console,
    set_uncaught, set_history; cbn.

(** ** The handlers run to their end *)

Lemma insert_at_end {A} (l : list A) (x y : A) : <[length l := x]> (l ++ [y]) = l ++ [x].
Proof. induction l as [|a l IH]; [done|]. cbn. by rewrite IH. Qed.

Lemma startStreaming_started w : startStreaming w = (inr tt, started w).
Proof. unfold startStreaming, WebSocket_new, started. exec. by setters. Qed.

Lemma socket_onopen_opened s w :
  (record (Ready s);; socket_onopen s) w = (inr tt, opened s w).
Proof.
  unfold socket_onopen, opened. exec. setters. by rewrite -app_assoc.
Qed.

Lemma onopen_with_stream_granted t s st w :
  tasks w !! t = Some (MkTask s st) →
  onopen_with_stream t s w = (inr tt, granted t s w).
Proof.
  intros Ht. unfold onopen_with_stream, AudioContext_new, set_stage, granted.
  exec. setters. by rewrite Ht.
Qed.

Lemma onopen_with_module_loaded t s st stream c w :
  tasks w !! t = Some (MkTask s st) →
  onopen_with_module t s stream c w = (inr tt, loaded t s c w).
Proof.
  intros Ht. unfold onopen_with_module, AudioWorkletNode_new, set_stage, loaded.
  exec. setters. rewrite Ht. setters.
  by rewrite !insert_at_end -app_assoc.
Qed.

Lemma catch_failed t s st err w :
  tasks w !! t = Some (MkTask s st) →
  (set_stage t Finished;; audio_setup_failed err) w = (inr tt, failed t s err w).
Proof.
  intros Ht. unfold set_stage, failed. exec. rewrite Ht. cbn.
  rewrite audio_setup_failed_eq. by setters.
Qed.

Lemma port_onmessage_forwarded (data : frame) w :
  port_onmessage data w = (inr tt, forwarded data w).
Proof.
  unfold forwarded.
  destruct (socketRef w) as [s|] eqn:Hs.
  - destruct (sockets w !! s) as [[r out]|] eqn:Hk.
    + destruct r; try (apply port_onmessage_not_open;
        rewrite Hs /= /socket_state Hk; discriminate).
      by apply port_onmessage_open.
    + apply port_onmessage_not_open. by rewrite Hs /= /socket_state Hk.
  - apply port_onmessage_not_open. by rewrite Hs.
Qed.

Lemma socket_onmessage_emitted text w :
  socket_onmessage JSON_parse text w =
    (inr tt, set_console (console w ++ emitted JSON_parse text) w).
Proof. apply socket_onmessage_console. Qed.

(** Every handler runs to its end without throwing, and one turn of the
    event loop is [next]. *)
Lemma step_next w ev : step JSON_parse w ev = next JSON_parse w ev.
Proof.
  destruct ev as [| |s|s text|s|t|t err|t|t err|n data]; cbn; unfold handle.
  - destruct (isRecording w); by rewrite ?stopAudio_eq ?startStreaming_started.
  - by rewrite stopAudio_eq.
  - destruct (socket_state w s) as [[]|]; try done. by rewrite socket_onopen_opened.
  - rewrite socket_onmessage_emitted. by destruct (socket_state w s) as [[]|].
  - rewrite socket_onclose_eq. by destruct (socket_state w s) as [[]|].
  - destruct (tasks w !! t) as [[s []]|] eqn:Ht; try done.
    by rewrite (onopen_with_stream_granted _ _ _ _ Ht).
  - destruct (tasks w !! t) as [[s []]|] eqn:Ht; try done.
    by rewrite (catch_failed _ _ _ _ _ Ht).
  - destruct (tasks w !! t) as [[s [|stream c|]]|] eqn:Ht; try done.
    by rewrite (onopen_with_module_loaded _ _ _ _ _ _ Ht).
  - destruct (tasks w !! t) as [[s [|stream c|]]|] eqn:Ht; try done.
    by rewrite (catch_failed _ _ _ _ _ Ht).
  - rewrite port_onmessage_forwarded. by destruct (nodes w !! n) as [[c [] b]|].
Qed.

(** One turn, by cases on the event and on what the handlers test. *)
Ltac turn :=
  rewrite ?step_next;
  match goal with ev : event |- _ => destruct ev end;
  cbn [next];
  unfold forwarded, started, opened, granted, loaded, failed, stopped,
    set_readyState, socket_state in *;
  repeat case_match; simplify_eq; setters.

(** ** What the event loop never does *)

Lemma next_uncaught w ev : uncaught (next JSON_parse w ev) = uncaught w.
Proof. turn; done. Qed.

(** X9.  No handler of the component lets an exception out: whatever
    events arrive, in whatever order, the host never sees an uncaught error
    from the component.  In particular [send] is never called on a socket
    that is still connecting. *)
Theorem handlers_never_throw evs w :
  uncaught (run JSON_parse evs w) = uncaught w.
Proof.
  revert w. induction evs as [|ev evs IH]; intros w; [done|].
  cbn. by rewrite IH step_next next_uncaught.
Qed.

(** X10.  The recording flag goes from off to on in one way only: by the
    [open] event of a socket that was connecting.  A click never sets it;
    a start request shows as recording only once its connection is
    established. *)
Theorem recording_turned_on_by_open w ev :
  isRecording w = false →
  isRecording (step JSON_parse w ev) = true →
  ∃ s, ev = SocketOpen s ∧ socket_state w s = Some CONNECTING.
Proof.
  intros Hoff Hon. rewrite step_next in Hon.
  destruct ev as [| |s|s text|s|t|t err|t|t err|n data]; cbn in Hon;
    try (exfalso; revert Hon;
         unfold forwarded, started, granted, loaded, failed, stopped, set_readyState;
         repeat case_match; setters; congruence).
  exists s. split; [done|].
  destruct (socket_state w s) as [[]|]; congruence.
Qed.

(** ** Order of delivery *)

Lemma set_console_set_console l1 l2 w :
  set_console l2 (set_console l1 w) = set_console l2 w.
Proof. done. Qed.

(** X11.  Text messages arriving on an open socket are handled one by one
    in their order of arrival: the console gets, in that order, what each
    message prints on its own, and nothing else in the world changes. *)
Theorem messages_in_order s texts w :
  socket_state w s = Some OPEN →
  run JSON_parse (messages s texts) w =
    set_console (console w ++ concat (emitted JSON_parse <$> texts)) w.
Proof.
  revert w. induction texts as [|text texts IH]; intros w Hs; cbn.
  - by rewrite app_nil_r; destruct w.
  - unfold handle. rewrite Hs socket_onmessage_emitted.
    unfold messages, run in IH. rewrite IH; [done|].
    by rewrite set_console_set_console /= app_assoc.
Qed.

Lemma deliveries_forwarded (fs : list (nat * frame)) w s out :
  socketRef w = Some s →
  sockets w !! s = Some (MkSocket OPEN out) →
  Forall (fun f => ∃ c b, nodes w !! f.1 = Some (MkNode c true b)) fs →
  run JSON_parse (deliveries fs) w =
    set_sockets (<[s := MkSocket OPEN (out ++ fs.*2)]> (sockets w)) w.
Proof.
  revert w out. induction fs as [|[n data] fs IH]; intros w out Hs Hk Hfs; cbn.
  - rewrite app_nil_r list_insert_id //. by destruct w.
  - inversion Hfs as [|? ? (c & b & Hn) Hfs']; subst. cbn in Hn.
    rewrite Hn. unfold handle.
    rewrite port_onmessage_forwarded /forwarded Hs Hk.
    unfold deliveries, run in IH.
    assert (Hlt : s < length (sockets w)) by by eapply lookup_lt_Some.
    rewrite (IH _ (out ++ [data])); setters; try done.
    + by rewrite list_lookup_insert_eq.
    + by rewrite list_insert_insert_eq -app_assoc.
Qed.

(** X12.  Frames arriving from wired worklet nodes while [socketRef] holds
    an open socket go out on that socket one message per frame, in their
    order of arrival, after what was sent before; nothing else in the world
    changes. *)
Theorem frames_in_order (fs : list (nat * frame)) w s out :
  socketRef w = Some s →
  sockets w !! s = Some (MkSocket OPEN out) →
  Forall (fun f => ∃ c b, nodes w !! f.1 = Some (MkNode c true b)) fs →
  run JSON_parse (deliveries fs) w =
    set_sockets (<[s := MkSocket OPEN (out ++ fs.*2)]> (sockets w)) w.
Proof. apply deliveries_forwarded. Qed.

(** ** What is transmitted *)

Lemma closing_keeps_sent r l s k :
  l !! s = Some k → ∃ k', closing r l !! s = Some k' ∧ sent k' = sent k.
Proof.
  intros Hk. unfold closing.
  destruct (l !! r) as [[[] out]|] eqn:Hr; try by eauto.
  all: destruct (decide (r = s)) as [->|Hne];
    [rewrite list_lookup_insert_eq; [by eapply lookup_lt_Some|];
     rewrite Hk in Hr; injection Hr as ->; by eauto
    |rewrite list_lookup_insert_ne //; by eauto].
Qed.

Lemma set_readyState_keeps_sent r st w s k :
  sockets w !! s = Some k →
  ∃ k', sockets (set_readyState r st w) !! s = Some k' ∧ sent k' = sent k.
Proof.
  intros Hk. unfold set_readyState.
  destruct (sockets w !! r) as [x|] eqn:Hr; [|by eauto]. setters.
  destruct (decide (r = s)) as [->|Hne].
  - rewrite list_lookup_insert_eq; [by eapply lookup_lt_Some|].
    rewrite Hk in Hr. injection Hr as ->. by eauto.
  - rewrite list_lookup_insert_ne //. by eauto.
Qed.

Lemma stopped_keeps_sent w s k :
  sockets w !! s = Some k →
  ∃ k', sockets (stopped w) !! s = Some k' ∧ sent k' = sent k.
Proof.
  intros Hk. cbn. destruct (socketRef w); [by apply closing_keeps_sent|by eauto].
Qed.

(** X13.  One turn of the event loop never removes or alters what a socket
    has transmitted, and the only event that transmits anything is the
    arrival of a frame from the worklet: it adds exactly that frame, and
    only to the socket that [socketRef] holds, which is then open.  Clicks,
    inbound messages and the setup of the audio path transmit nothing. *)
Theorem transmitted_only_by_frames w ev s k :
  sockets w !! s = Some k →
  ∃ k', sockets (step JSON_parse w ev) !! s = Some k' ∧
        (sent k' = sent k ∨
         ∃ n data, ev = PortMessage n data ∧ socketRef w = Some s ∧
                   readyState k = OPEN ∧ sent k' = sent k ++ [data]).
Proof.
  intros Hk. rewrite step_next.
  assert (Hsame : ∀ w', (∃ k', sockets w' !! s = Some k' ∧ sent k' = sent k) →
     ∃ k', sockets w' !! s = Some k' ∧
        (sent k' = sent k ∨
         ∃ n data, ev = PortMessage n data ∧ socketRef w = Some s ∧
                   readyState k = OPEN ∧ sent k' = sent k ++ [data])).
  { intros w' (k' & ? & ?). exists k'. auto. }
  destruct ev as [| |s0|s0 text|s0|t|t err|t|t err|n data]; cbn [next].
  - destruct (isRecording w); apply Hsame.
    + by apply stopped_keeps_sent.
    + exists k. split; [|done]. unfold started. setters. by apply lookup_app_l_Some.
  - apply Hsame. by apply stopped_keeps_sent.
  - destruct (socket_state w s0) as [[]|]; apply Hsame; try by eauto.
    unfold opened. setters. by apply set_readyState_keeps_sent.
  - destruct (socket_state w s0) as [[]|]; apply Hsame; by eauto.
  - destruct (socket_state w s0) as [[]|]; apply Hsame; try by eauto.
    all: destruct (set_readyState_keeps_sent s0 CLOSED w s k Hk) as (k1 & Hk1 & <-);
      by apply stopped_keeps_sent.
  - destruct (tasks w !! t) as [[? []]|]; apply Hsame; by eauto.
  - destruct (tasks w !! t) as [[? []]|]; apply Hsame; try by eauto.
    unfold failed. setters. destruct (socketRef w); [by apply closing_keeps_sent|by eauto].
  - destruct (tasks w !! t) as [[? []]|]; apply Hsame; by eauto.
  - destruct (tasks w !! t) as [[? []]|]; apply Hsame; try by eauto.
    unfold failed. setters. destruct (socketRef w); [by apply closing_keeps_sent|by eauto].
  - destruct (nodes w !! n) as [[c [] b]|]; try (apply Hsame; by eauto).
    unfold forwarded.
    destruct (socketRef w) as [r|] eqn:Hr; [|apply Hsame; by eauto].
    destruct (sockets w !! r) as [[[] out]|] eqn:Hout; try (apply Hsame; by eauto).
    setters. destruct (decide (r = s)) as [->|Hne].
    + rewrite list_lookup_insert_eq; [by eapply lookup_lt_Some|].
      rewrite Hk in Hout. injection Hout as ->.
      eexists. split; [done|]. right. by exists n, data.
    + rewrite list_lookup_insert_ne //. apply Hsame. by eauto.
Qed.

(** ** References stay valid *)

Lemma refs_valid_init : refs_valid init.
Proof. split_and!; intros; by rewrite ?lookup_nil in H |- *. Qed.

Lemma refs_valid_stopped w : refs_valid w → refs_valid (stopped w).
Proof.
  intros (H1 & H2 & H3 & H4 & H5 & H6). split_and!; cbn; try done.
  - intros n k Hn. destruct (audioContextRef w); rewrite ?length_insert; by eapply H4.
  - intros t s st c Ht. destruct (audioContextRef w); rewrite ?length_insert; by eapply H5.
  - intros t k Ht. destruct (socketRef w); rewrite ?length_closing; by eapply H6.
Qed.

Lemma refs_valid_set_readyState s r w : refs_valid w → refs_valid (set_readyState s r w).
Proof.
  intros H. unfold set_readyState.
  destruct (sockets w !! s); [|exact H].
  destruct H as (H1 & H2 & H3 & H4 & H5 & H6). split_and!; fields; try done.
  - intros s' Hs'. rewrite length_insert. by apply H1.
  - intros t k Ht. rewrite length_insert. by eapply H6.
Qed.

Lemma refs_valid_started w : refs_valid w → refs_valid (started w).
Proof.
  intros (H1 & H2 & H3 & H4 & H5 & H6). unfold started.
  split_and!; fields; try done.
  - intros s [= <-]. rewrite length_app /=. lia.
  - intros t k Ht. rewrite length_app /=. apply H6 in Ht. lia.
Qed.

Lemma refs_valid_opened s w :
  s < length (sockets w) → refs_valid w → refs_valid (opened s w).
Proof.
  intros Hs (H1 & H2 & H3 & H4 & H5 & H6). unfold opened.
  split_and!; fields; try done.
  - intros t s' st c [Ht|[_ Ht]]%lookup_app_Some; [by eapply H5|].
    by destruct (t - length (tasks w)).
  - intros t k [Ht|[_ Ht]]%lookup_app_Some; [by eapply H6|].
    destruct (t - length (tasks w)); [|done]. by injection Ht as <-.
Qed.

Lemma refs_valid_granted t s st w :
  tasks w !! t = Some (MkTask s st) → refs_valid w → refs_valid (granted t s w).
Proof.
  intros Ht (H1 & H2 & H3 & H4 & H5 & H6). destruct w. cbn in *.
  split_and!; cbn; try done.
  - intros c [= <-]. by rewrite lookup_app_r // Nat.sub_diag.
  - intros n k Hn. rewrite length_app /=. apply H4 in Hn. lia.
  - intros t' s' st' c [(_ & [= <- <- <-] & _) | [_ H]]%list_lookup_insert_Some;
      rewrite length_app /=; [lia|]. apply H5 in H. lia.
  - intros t' k [(_ & <- & _) | [_ H]]%list_lookup_insert_Some; [|by eapply H6].
    by apply (H6 t _ Ht).
Qed.

Lemma refs_valid_loaded t s stream c w :
  tasks w !! t = Some (MkTask s (AwaitAddModule stream c)) →
  refs_valid w → refs_valid (loaded t s c w).
Proof.
  intros Ht (H1 & H2 & H3 & H4 & H5 & H6). unfold loaded.
  split_and!; fields; try done.
  - intros n [= <-]. exists c. by rewrite lookup_app_r // Nat.sub_diag.
  - intros n k [Hn|[_ Hn]]%lookup_app_Some; [by eapply H4|].
    destruct (n - length (nodes w)); [|done]. injection Hn as <-. cbn.
    by eapply H5.
  - intros t' s' st' c' [(_ & [=] & _) | [_ H]]%list_lookup_insert_Some.
    by eapply H5.
  - intros t' k [(_ & <- & _) | [_ H]]%list_lookup_insert_Some; [|by eapply H6].
    by apply (H6 t _ Ht).
Qed.

Lemma refs_valid_failed t s st err w :
  tasks w !! t = Some (MkTask s st) → refs_valid w → refs_valid (failed t s err w).
Proof.
  intros Ht (H1 & H2 & H3 & H4 & H5 & H6). unfold failed.
  assert (Hlen : length (match socketRef w with
                         | Some r => closing r (sockets w)
                         | None => sockets w
                         end) = length (sockets w)).
  { destruct (socketRef w); by rewrite ?length_closing. }
  split_and!; fields; try done.
  - intros s' Hs'. rewrite Hlen. by apply H1.
  - intros t' s' st' c' [(_ & [=] & _) | [_ H]]%list_lookup_insert_Some.
    by eapply H5.
  - intros t' k. rewrite Hlen.
    intros [(_ & <- & _) | [_ H]]%list_lookup_insert_Some; [|by eapply H6].
    by apply (H6 t _ Ht).
Qed.

Lemma refs_valid_forwarded (data : frame) w : refs_valid w → refs_valid (forwarded data w).
Proof.
  intros H. unfold forwarded.
  destruct (socketRef w) as [s|] eqn:Hs; [|exact H].
  destruct (sockets w !! s) as [[[] out]|]; try exact H.
  destruct H as (H1 & H2 & H3 & H4 & H5 & H6).
  split_and!; fields; try done.
  - intros s' Hs'. rewrite length_insert. apply H1. congruence.
  - intros t k Ht. rewrite length_insert. by eapply H6.
Qed.

Lemma next_refs_valid w ev : refs_valid w → refs_valid (next JSON_parse w ev).
Proof.
  intros H. destruct ev as [| |s|s text|s|t|t err|t|t err|n data]; cbn [next].
  - destruct (isRecording w); [by apply refs_valid_stopped|by apply refs_valid_started].
  - by apply refs_valid_stopped.
  - destruct (socket_state w s) as [[]|] eqn:Hst; try done.
    assert (Hlt : s < length (sockets w)).
    { unfold socket_state in Hst. destruct (sockets w !! s) eqn:Hk; [|done].
      by eapply lookup_lt_Some. }
    apply refs_valid_opened; [|by apply refs_valid_set_readyState].
    unfold set_readyState. destruct (sockets w !! s); [|done].
    setters. by rewrite length_insert.
  - by destruct (socket_state w s) as [[]|].
  - destruct (socket_state w s) as [[]|]; try done;
      by apply refs_valid_stopped, refs_valid_set_readyState.
  - destruct (tasks w !! t) as [[s []]|] eqn:Ht; try done.
    by eapply refs_valid_granted.
  - destruct (tasks w !! t) as [[s []]|] eqn:Ht; try done.
    by eapply refs_valid_failed.
  - destruct (tasks w !! t) as [[s [|stream c|]]|] eqn:Ht; try done.
    by eapply refs_valid_loaded.
  - destruct (tasks w !! t) as [[s [|stream c|]]|] eqn:Ht; try done.
    by eapply refs_valid_failed.
  - destruct (nodes w !! n) as [[c [] b]|]; try done.
    by apply refs_valid_forwarded.
Qed.

(** X14.  In every run of the component from its initial state, each of the
    three references holds nothing or an object that exists; the audio
    context held in [audioContextRef] is running (so [stopAudio] never
    closes a context twice); the node held in [workletNodeRef] is wired and
    connected; every node belongs to a context that exists, and every
    suspended [onopen] to a socket that exists. *)
Theorem refs_stay_valid evs : refs_valid (run JSON_parse evs init).
Proof.
  assert (H : ∀ w, refs_valid w → refs_valid (run JSON_parse evs w)).
  { induction evs as [|ev evs IH]; intros w Hw; [done|].
    cbn. apply IH. rewrite step_next. by apply next_refs_valid. }
  apply H, refs_valid_init.
Qed.

(** ** Starting, stopping and failing at awkward moments *)

(** X15.  A click while the recording flag is off always creates one more
    socket and makes [socketRef] hold it; the flag stays off until that
    socket opens.  Nothing is closed or cancelled on the way: a socket of an
    earlier click, connecting or open, is left as it is, and so are the
    audio context held and the suspended handlers. *)
Theorem restart_keeps_old_socket w :
  isRecording w = false →
  let w1 := step JSON_parse w Click in
  sockets w1 = sockets w ++ [MkSocket CONNECTING []] ∧
  socketRef w1 = Some (length (sockets w)) ∧
  isRecording w1 = false ∧
  (∀ s k, sockets w !! s = Some k → sockets w1 !! s = Some k) ∧
  audioContextRef w1 = audioContextRef w ∧
  contexts w1 = contexts w ∧ tasks w1 = tasks w.
Proof.
  intros Hoff w1. unfold w1. rewrite step_next /= Hoff /started. setters.
  split_and!; try done. intros s k Hk. by apply lookup_app_l_Some.
Qed.

(** X16.  Stopping while the microphone prompt is pending does not cancel
    the request.  When the microphone is granted afterwards, the handler
    goes on as if nothing had happened: it creates an audio context, stores
    it in [audioContextRef] and starts loading the worklet module, although
    the recording flag is off and no socket is held. *)
Theorem grant_after_stop w t s :
  isRecording w = true →
  tasks w !! t = Some (MkTask s AwaitUserMedia) →
  let w2 := run JSON_parse [Click; UserMediaGranted t] w in
  isRecording w2 = false ∧ socketRef w2 = None ∧
  audioContextRef w2 = Some (length (contexts w)) ∧
  contexts w2 !! length (contexts w) = Some running ∧
  streams w2 = S (streams w) ∧
  tasks w2 !! t
  = Some (MkTask s (AwaitAddModule (streams w) (length (contexts w)))).
Proof.
  intros Hon Ht w2. unfold w2. cbn [run foldl]. rewrite !step_next.
  destruct w as [rec sref aref nref socks ctxs nds strs tsks cons unc hist].
  cbn in Hon, Ht. subst rec. cbn. rewrite Ht. cbn.
  assert (Hlen : length (match aref with
                         | Some c => <[c:=closed]> ctxs
                         | None => ctxs
                         end) = length ctxs).
  { destruct aref; by rewrite ?length_insert. }
  rewrite Hlen. split_and!; try done.
  - by rewrite lookup_app_r -Hlen // Nat.sub_diag.
  - apply list_lookup_insert_eq. by eapply lookup_lt_Some.
Qed.

(** X17.  The [close] event of any socket, not only of the one that
    [socketRef] holds, runs [stopAudio] on what the component holds now:
    the held socket is closed, the held audio context is closed, both
    references are cleared and the recording flag is turned off. *)
Theorem any_close_stops_session w s' r s :
  socket_state w s' = Some r → r ≠ CLOSED →
  socketRef w = Some s → s ≠ s' → is_Some (sockets w !! s) →
  let w1 := step JSON_parse w (SocketClose s') in
  w1 = stopped (set_readyState s' CLOSED w) ∧
  socket_state w1 s' = Some CLOSED ∧
  released w1 s ∧
  socketRef w1 = None ∧ audioContextRef w1 = None ∧ isRecording w1 = false ∧
  (∀ c, audioContextRef w = Some c → is_Some (contexts w !! c) →
        contexts w1 !! c = Some closed).
Proof.
  intros Hst Hr Hs Hne [k Hk] w1.
  assert (Hw1 : w1 = stopped (set_readyState s' CLOSED w)).
  { unfold w1. rewrite step_next /= Hst. by destruct r. }
  unfold socket_state in Hst.
  destruct (sockets w !! s') as [k'|] eqn:Hk'; [|done].
  assert (Hlt' : s' < length (sockets w)) by by eapply lookup_lt_Some.
  split; [done|]. rewrite Hw1. unfold set_readyState, released, socket_state.
  rewrite Hk'. setters. rewrite Hs.
  assert (Hks : <[s':=MkSocket CLOSED (sent k')]> (sockets w) !! s = Some k)
    by by rewrite list_lookup_insert_ne.
  split_and!; try done.
  - unfold closing. rewrite Hks.
    destruct k as [[] out];
      rewrite ?(list_lookup_insert_ne _ s s') // list_lookup_insert_eq //.
  - by eapply closing_released.
  - intros c Hc [x Hx]. rewrite Hc. apply list_lookup_insert_eq.
    by eapply lookup_lt_Some.
Qed.

(** X18.  When the audio setup fails, at the microphone or at the worklet
    module, the [catch] block prints the error, turns the recording flag
    off and calls [close()] on the socket that [socketRef] holds; the
    suspended handler is finished and nothing is thrown.  It does not clear
    [socketRef], and it does not touch the audio context: a context created
    before the failure stays running and referenced. *)
Theorem setup_failure_closes_held_socket w t s st err ev :
  tasks w !! t = Some (MkTask s st) →
  (st = AwaitUserMedia ∧ ev = UserMediaDenied t err) ∨
  (∃ stream c, st = AwaitAddModule stream c ∧ ev = ModuleFailed t err) →
  let w1 := step JSON_parse w ev in
  isRecording w1 = false ∧
  console w1 = console w ++ [error_audio_setup err] ∧
  uncaught w1 = uncaught w ∧
  tasks w1 !! t = Some (MkTask s Finished) ∧
  socketRef w1 = socketRef w ∧
  (∀ r, socketRef w = Some r → is_Some (sockets w !! r) → released w1 r) ∧
  audioContextRef w1 = audioContextRef w ∧ contexts w1 = contexts w.
Proof.
  intros Ht Hev w1.
  assert (Hw1 : w1 = failed t s err w).
  { unfold w1. rewrite step_next.
    destruct Hev as [[-> ->] | (stream & c & -> & ->)]; cbn; by rewrite Ht. }
  rewrite Hw1. unfold failed. setters. split_and!; try done.
  - apply list_lookup_insert_eq. by eapply lookup_lt_Some.
  - intros r Hr [k Hk]. unfold released, socket_state. setters. rewrite Hr.
    by eapply closing_released.
Qed.


(** ** From the microphone to the socket *)

(** X20.  End to end: when the frames that the processor posted during a
    run of the engine arrive from a wired node while [socketRef] holds an
    open socket, that socket transmits, after what it had sent, one message
    per quantum that had an input, in the order of the quanta, each holding
    the samples of channel 0 at the time of its quantum. *)
Theorem blocks_reach_socket qs (g : AudioProcessor.Scope) n c b w s out :
  AudioProcessor.port g = [] →
  socketRef w = Some s →
  sockets w !! s = Some (MkSocket OPEN out) →
  nodes w !! n = Some (MkNode c true b) →
  run JSON_parse (deliveries (arrivals n (AudioProcessor.render qs g))) w =
    set_sockets (<[s := MkSocket OPEN (out ++ blocks qs g)]> (sockets w)) w.
Proof.
  intros Hport Hs Hk Hn.
  rewrite (deliveries_forwarded _ w s out Hs Hk).
  - unfold arrivals. apply Forall_fmap, Forall_true. intros m. cbn. by eauto.
  - assert (Hp : (arrivals n (AudioProcessor.render qs g)).*2 = blocks qs g).
    { unfold arrivals. rewrite -list_fmap_compose.
      change (snd ∘ _) with AudioProcessor.payload.
      by rewrite render_payloads Hport. }
    by rewrite Hp.
Qed.

(** ** What each kind of message prints *)

Lemma interpolate_prints v w : prints v → interpolate v w = (inr tt, w).
Proof. unfold prints, interpolate. destruct v as [j|]; [|done]. by intros ->. Qed.

Lemma interpolate_converts v w :
  interpolate v w = (if converts v then inr tt else inl TypeError, w).
Proof. unfold interpolate, converts. destruct v as [j|]; [|done]. by destruct (printable j). Qed.

(** X5.  A [note_on] message whose [note] is truthy and whose [start_time]
    is absent, [null] or a number prints exactly one entry and changes
    nothing else.  When the note converts to a string the entry is the
    note-on line, carrying that note and that start time.  When it does not
    (an object with a member [toString], or an array that contains one),
    the template throws a TypeError, which the [catch] of [onmessage]
    prints under the parse-error label; no note line is printed. *)
Theorem note_on_logged text data note start_time start w :
  JSON_parse text = Some data →
  Get data "type" = inr (Some (JStr "note_on")) →
  Get data "note" = inr note → truthy note = true →
  Get data "start_time" = inr start_time → toFixed3 start_time = inr start →
  socket_onmessage JSON_parse text w =
    (inr tt,
     set_console
       (console w ++ [if converts note then log_note_on note start
                      else error_json_parse TypeError]) w).
Proof.
  intros Hparse Hty Hnote Htruthy Hst Hfix.
  unfold socket_onmessage, handleServerEvent. exec.
  rewrite Hparse Hty /= Hnote Htruthy /= interpolate_converts.
  destruct (converts note); [|done]. by rewrite Hst Hfix.
Qed.

(** X6.  A [note_off] message whose [start_time] and [duration] are each
    absent, [null] or a number prints exactly one entry and changes nothing
    else, whether it has a note or not (unlike [note_on]).  When the note
    is absent or converts to a string the entry is the note-off line with
    that note, start time and duration.  When the note does not convert
    (an object with a member [toString], or an array that contains one),
    the entry is a TypeError under the parse-error label. *)
Theorem note_off_logged text data note start_time start duration dur w :
  JSON_parse text = Some data →
  Get data "type" = inr (Some (JStr "note_off")) →
  Get data "note" = inr note →
  Get data "start_time" = inr start_time → toFixed3 start_time = inr start →
  Get data "duration" = inr duration → toFixed3 duration = inr dur →
  socket_onmessage JSON_parse text w =
    (inr tt,
     set_console
       (console w ++ [if converts note then log_note_off note start dur
                      else error_json_parse TypeError]) w).
Proof.
  intros Hparse Hty Hnote Hst Hfix Hd Hdfix.
  unfold socket_onmessage, handleServerEvent. exec.
  rewrite Hparse Hty /= Hnote interpolate_converts.
  destruct (converts note); [|done]. by rewrite Hst Hfix Hd Hdfix.
Qed.

(** X7.  A [volume] message is accepted and changes nothing, whatever its
    [value]; a [silence_reset] message prints exactly one line. *)
Theorem volume_quiet_reset_logged text data w :
  JSON_parse text = Some data →
  (Get data "type" = inr (Some (JStr "volume")) →
   socket_onmessage JSON_parse text w = (inr tt, w)) ∧
  (Get data "type" = inr (Some (JStr "silence_reset")) →
   socket_onmessage JSON_parse text w =
     (inr tt, set_console (console w ++ [log_silence_reset]) w)).
Proof.
  intros Hparse. unfold socket_onmessage, handleServerEvent. exec.
  rewrite Hparse. split; by intros ->.
Qed.


End LoopFacts.

(** The further properties on concrete scopes, messages and worlds. *)
Section RunExamples.
Import AudioProcessor Js RecordButton Spec Samples Runs Wire.

Lemma render_frames_keep_payload_witness :
  Forall (fun m => heap (render three_quanta scope_start) !! source m
                   = Some (payload m))
         (port (render three_quanta scope_start)).
Proof.
  apply (render_frames_keep_payload three_quanta scope_start).
  - reflexivity.
  - repeat constructor; vm_compute; reflexivity.
Defined.

Lemma render_frames_isolated_witness :
  source (Message 2%positive [1; 2]%Z) ≠ source (Message 3%positive [3; 4]%Z) ∧
  heap (Float32Array_set (source (Message 2%positive [1; 2]%Z)) 0 99%Z
          (render three_quanta scope_start)) !! source (Message 3%positive [3; 4]%Z)
  = heap (render three_quanta scope_start) !! source (Message 3%positive [3; 4]%Z).
Proof.
  apply (render_frames_isolated three_quanta scope_start 0 1
           (Message 2%positive [1; 2]%Z) (Message 3%positive [3; 4]%Z) 0 99%Z).
  - reflexivity.
  - vm_compute; reflexivity.
  - vm_compute; reflexivity.
  - lia.
Defined.

Lemma note_on_logged_witness :
  socket_onmessage parse_samples text_note_on streaming_world =
    (inr tt,
     set_console
       (console streaming_world
        ++ [if converts (Some (JStr "A4"))
            then log_note_on (Some (JStr "A4")) (Some 0.5%float)
            else error_json_parse TypeError])
       streaming_world) ∧
  socket_onmessage parse_more text_note_on_odd streaming_world =
    (inr tt,
     set_console
       (console streaming_world
        ++ [if converts (Some (JObj [("toString", JNum 1)]))
            then log_note_on (Some (JObj [("toString", JNum 1)])) (Some 0.5%float)
            else error_json_parse TypeError])
       streaming_world).
Proof.
  split.
  - apply (note_on_logged parse_samples text_note_on data_note_on
             (Some (JStr "A4")) (Some (JNum 0.5)) (Some 0.5%float) streaming_world);
      vm_compute; reflexivity.
  - apply (note_on_logged parse_more text_note_on_odd data_note_on_odd
             (Some (JObj [("toString", JNum 1)])) (Some (JNum 0.5)) (Some 0.5%float)
             streaming_world);
      vm_compute; reflexivity.
Defined.

Lemma note_off_logged_witness :
  socket_onmessage parse_wire text_note_off streaming_world =
    (inr tt,
     set_console
       (console streaming_world
        ++ [if converts (Some (JStr "A4"))
            then log_note_off (Some (JStr "A4")) (Some 0.5%float) (Some 0.25%float)
            else error_json_parse TypeError])
       streaming_world) ∧
  socket_onmessage parse_more text_note_off_bare streaming_world =
    (inr tt,
     set_console
       (console streaming_world
        ++ [if converts None
            then log_note_off None (Some 0.5%float) (Some 0.25%float)
            else error_json_parse TypeError])
       streaming_world).
Proof.
  split.
  - apply (note_off_logged parse_wire text_note_off data_note_off
             (Some (JStr "A4")) (Some (JNum 0.5)) (Some 0.5%float)
             (Some (JNum 0.25)) (Some 0.25%float) streaming_world);
      vm_compute; reflexivity.
  - apply (note_off_logged parse_more text_note_off_bare data_note_off_bare
             None (Some (JNum 0.5)) (Some 0.5%float)
             (Some (JNum 0.25)) (Some 0.25%float) streaming_world);
      vm_compute; reflexivity.
Defined.

Lemma volume_quiet_reset_logged_witness :
  socket_onmessage parse_wire text_volume streaming_world = (inr tt, streaming_world) ∧
  socket_onmessage parse_wire text_silence_reset streaming_world =
    (inr tt, set_console (console streaming_world ++ [log_silence_reset]) streaming_world).
Proof.
  split.
  - apply (volume_quiet_reset_logged parse_wire text_volume data_volume streaming_world);
      vm_compute; reflexivity.
  - apply (volume_quiet_reset_logged parse_wire text_silence_reset data_silence_reset
             streaming_world); vm_compute; reflexivity.
Defined.


Lemma recording_turned_on_by_open_witness :
  ∃ s, SocketOpen 1 = SocketOpen s ∧ socket_state double_started s = Some CONNECTING.
Proof.
  apply (recording_turned_on_by_open parse_samples double_started (SocketOpen 1));
    reflexivity.
Defined.

Lemma messages_in_order_witness :
  run parse_samples (messages 0 [text_note_on; text_broken; text_re_trigger])
    streaming_world =
    set_console
      (console streaming_world
       ++ concat (emitted parse_samples <$> [text_note_on; text_broken; text_re_trigger]))
      streaming_world.
Proof.
  apply (messages_in_order parse_samples 0
           [text_note_on; text_broken; text_re_trigger] streaming_world).
  reflexivity.
Defined.

Lemma frames_in_order_witness :
  run parse_samples (deliveries [(0, [1]%Z); (0, [2; 3]%Z)]) streaming_world =
    set_sockets
      (<[0 := MkSocket OPEN ([] ++ [(0, [1]%Z); (0, [2; 3]%Z)].*2)]>
         (sockets streaming_world))
      streaming_world.
Proof.
  apply (frames_in_order parse_samples [(0, [1]%Z); (0, [2; 3]%Z)] streaming_world 0 []).
  - reflexivity.
  - reflexivity.
  - repeat constructor; exists 0, true; reflexivity.
Defined.

Lemma transmitted_only_by_frames_witness :
  ∃ k', sockets (step parse_samples streaming_world (PortMessage 0 [7]%Z)) !! 0 = Some k' ∧
        (sent k' = sent (MkSocket OPEN []) ∨
         ∃ n data, PortMessage 0 [7]%Z = PortMessage n data ∧
                   socketRef streaming_world = Some 0 ∧
                   readyState (MkSocket OPEN []) = OPEN ∧
                   sent k' = sent (MkSocket OPEN []) ++ [data]).
Proof.
  apply (transmitted_only_by_frames parse_samples streaming_world
           (PortMessage 0 [7]%Z) 0 (MkSocket OPEN [])).
  reflexivity.
Defined.

Lemma restart_keeps_old_socket_witness :
  let w1 := step parse_samples connecting_world Click in
  sockets w1 = sockets connecting_world ++ [MkSocket CONNECTING []] ∧
  socketRef w1 = Some (length (sockets connecting_world)) ∧
  isRecording w1 = false ∧
  (∀ s k, sockets connecting_world !! s = Some k → sockets w1 !! s = Some k) ∧
  audioContextRef w1 = audioContextRef connecting_world ∧
  contexts w1 = contexts connecting_world ∧ tasks w1 = tasks connecting_world.
Proof.
  apply (restart_keeps_old_socket parse_samples connecting_world). reflexivity.
Defined.

Lemma grant_after_stop_witness :
  let w2 := run parse_samples [Click; UserMediaGranted 0] asking_world in
  isRecording w2 = false ∧ socketRef w2 = None ∧
  audioContextRef w2 = Some (length (contexts asking_world)) ∧
  contexts w2 !! length (contexts asking_world) = Some running ∧
  streams w2 = S (streams asking_world) ∧
  tasks w2 !! 0
  = Some (MkTask 0 (AwaitAddModule (streams asking_world)
                      (length (contexts asking_world)))).
Proof.
  apply (grant_after_stop parse_samples asking_world 0 0); reflexivity.
Defined.

Lemma any_close_stops_session_witness :
  let w1 := step parse_samples two_sessions (SocketClose 0) in
  w1 = stopped (set_readyState 0 CLOSED two_sessions) ∧
  socket_state w1 0 = Some CLOSED ∧
  released w1 1 ∧
  socketRef w1 = None ∧ audioContextRef w1 = None ∧ isRecording w1 = false ∧
  (∀ c, audioContextRef two_sessions = Some c → is_Some (contexts two_sessions !! c) →
        contexts w1 !! c = Some closed).
Proof.
  apply (any_close_stops_session parse_samples two_sessions 0 OPEN 1).
  - reflexivity.
  - discriminate.
  - reflexivity.
  - lia.
  - eexists. reflexivity.
Defined.

Lemma setup_failure_closes_held_socket_witness :
  let w1 := step parse_samples asking_world (UserMediaDenied 0 NotFoundError) in
  isRecording w1 = false ∧
  console w1 = console asking_world ++ [error_audio_setup NotFoundError] ∧
  uncaught w1 = uncaught asking_world ∧
  tasks w1 !! 0 = Some (MkTask 0 Finished) ∧
  socketRef w1 = socketRef asking_world ∧
  (∀ r, socketRef asking_world = Some r → is_Some (sockets asking_world !! r) →
        released w1 r) ∧
  audioContextRef w1 = audioContextRef asking_world ∧
  contexts w1 = contexts asking_world.
Proof.
  apply (setup_failure_closes_held_socket parse_samples asking_world 0 0
           AwaitUserMedia NotFoundError (UserMediaDenied 0 NotFoundError)).
  - reflexivity.
  - left. split; reflexivity.
Defined.


Lemma blocks_reach_socket_witness :
  run parse_samples (deliveries (arrivals 0 (render three_quanta scope_start)))
    streaming_world =
    set_sockets
      (<[0 := MkSocket OPEN ([] ++ blocks three_quanta scope_start)]>
         (sockets streaming_world))
      streaming_world.
Proof.
  apply (blocks_reach_socket parse_samples three_quanta scope_start 0 0 true
           streaming_world 0 []); reflexivity.
Defined.

End RunExamples.
